(** * Verification of the extension linter (extensions/extension-editing/src/extensionLinter.ts)

    The linter validates image references of an extension: the [icon] and
    [badges[].url] fields of a [package.json] manifest and the images of a
    README or changelog written in Markdown with embedded HTML.

    The development is a shallow embedding.  JavaScript strings are modelled
    by [string], one character per code unit; offsets are [Z] because the
    code compares the result of [indexOf] with [-1].  The collaborators the
    file imports (the URI parser, the JSON parser, the Markdown parser, the
    HTML tag scanner, the offset conversion of documents) are the fields of
    the class [Host]: every theorem that quantifies over a [Host] holds for
    each implementation of them.

    [Uri.parse] throws on some strings.  The functions of the linter are
    first written for the runs in which it returns ([lintPackageJson],
    [lintReadmeLoop], [step]); [lintPackageJsonE], [lintReadmeLoopE] and
    [stepE] add the error that leaves a callback, and the two are related
    in the theorems.  An issue holds the two offsets that the code hands to
    [document.positionAt]; [published] gives the range that the editor
    builds from them. *)

From Stdlib Require Import ZArith Lia Bool Ascii String List.
From stdpp Require Import base decidable option list gmap strings.

Local Open Scope Z_scope.
Set Warnings "-register-all".

(** ** String primitives of the host language *)

Module JsString.

Definition len (s : string) : Z := Z.of_nat (String.length s).

(** [s.substring(k)] for [k] already clamped to [0 .. len s]. *)
Fixpoint drop (k : nat) (s : string) : string :=
  match k, s with
  | O, _ => s
  | S k', String _ s' => drop k' s'
  | S _, EmptyString => EmptyString
  end.

(** Smallest position of [s], counted from [k], at which [sub] starts. *)
Fixpoint find_at (sub s : string) (k : Z) : Z :=
  if String.prefix sub s then k
  else match s with
       | EmptyString => -1
       | String _ s' => find_at sub s' (k + 1)
       end.

(** [s.indexOf(sub, pos)]: the position is clamped to [0 .. len s], the
    result is the first occurrence at or after it, or [-1]. *)
Definition indexOf (s sub : string) (pos : Z) : Z :=
  let start := Z.min (Z.max pos 0) (len s) in
  find_at sub (drop (Z.to_nat start) s) start.

Definition lower_ascii (c : ascii) : ascii :=
  let n := nat_of_ascii c in
  if ((65 <=? n)%nat && (n <=? 90)%nat)%bool then ascii_of_nat (n + 32) else c.

(** [s.toLowerCase()] on the ASCII letters. *)
Fixpoint toLowerCase (s : string) : string :=
  match s with
  | EmptyString => EmptyString
  | String c s' => String (lower_ascii c) (toLowerCase s')
  end.

(** Truthiness of a string: the empty string is falsy. *)
Definition truthy (s : string) : bool := negb (String.eqb s "").

End JsString.

Import JsString.

(** [endsWith] of the source, lines 281-290. *)
Definition endsWith (haystack needle : string) : bool :=
  let diff := len haystack - len needle in
  if 0 <? diff then indexOf haystack needle diff =? diff
  else if diff =? 0 then String.eqb haystack needle
  else false.

(** ** Data model *)

(** The components of a [vscode.Uri]. *)
Record Uri := mkUri {
  scheme : string;
  authority : string;
  path : string;
  query : string;
  fragment : string
}.

#[global] Instance Uri_eq_dec : EqDecision Uri.
Proof. solve_decision. Defined.

(** [uri.with({ path: p })]. *)
Definition with_path (u : Uri) (p : string) : Uri :=
  mkUri (scheme u) (authority u) p (query u) (fragment u).

(** The three usages of an image (enum [Context]). *)
Inductive Context := ICON | BADGE | MARKDOWN.

(** The four localized messages of the source, lines 20-23.  In the words of
    the specification: [httpsRequired] is InsecureScheme, [dataUrlsNotValid]
    is DataUrlForbidden, [relativeUrlRequiresHttpsRepository] is
    RelativeRequiresSecureRepo and [svgsNotValid] is SvgDisallowed. *)
Inductive Message :=
| httpsRequired
| svgsNotValid
| dataUrlsNotValid
| relativeUrlRequiresHttpsRepository.

#[global] Instance Message_eq_dec : EqDecision Message.
Proof. solve_decision. Defined.

Inductive DiagnosticSeverity := Error | Warning | Information | Hint.

#[global] Instance DiagnosticSeverity_eq_dec : EqDecision DiagnosticSeverity.
Proof. solve_decision. Defined.

(** A [Diagnostic].  Its range is kept as the two offsets the linter hands
    to [document.positionAt]; [published], below, gives the [Range] that is
    built from them. *)
Record Diagnostic := mkDiagnostic {
  range_begin : Z;
  range_end : Z;
  message : Message;
  severity : DiagnosticSeverity
}.

#[global] Instance Diagnostic_eq_dec : EqDecision Diagnostic.
Proof. solve_decision. Defined.

Record PackageJsonInfo := mkInfo {
  isExtension : bool;
  hasHttpsRepository : bool
}.

#[global] Instance PackageJsonInfo_eq_dec : EqDecision PackageJsonInfo.
Proof. solve_decision. Defined.

Definition kinds (ds : list Diagnostic) : list Message := map message ds.

(** A [Position] of the editor. *)
Record Position := mkPosition { line : Z; character : Z }.

(** A node of the syntax tree of jsonc-parser.  [value] is the text of a
    string node; the linter reads no other value. *)
Module JsonNode.

Inductive t := mk {
  type : string;
  offset : Z;
  length : Z;
  value : string;
  children : list t
}.

End JsonNode.

(** A token of markdown-it. *)
Module Token.

Inductive t := mk {
  type : string;
  map : option (Z * Z);
  attrs : list (string * string);
  content : string;
  children : list t
}.

(** [token.attrGet(name)]: the value of the first attribute of that name,
    [None] for [null]. *)
Definition attrGet (token : t) (name : string) : option string :=
  snd <$> List.find (fun a => String.eqb (fst a) name) (attrs token).

End Token.

(** A [startTag] event of the SAX parser of parse5: the tag name, its
    attributes and [location.startOffset]. *)
Record StartTag := mkStartTag {
  name : string;
  tag_attrs : list (string * string);
  startOffset : Z
}.

Module TokenAndPosition.

Record t := mk {
  token : Token.t;
  begin : Z;
  end_ : Z
}.

End TokenAndPosition.

Abbreviation TokenAndPosition := TokenAndPosition.t.
Abbreviation mkTnp := TokenAndPosition.mk.

(** Truthiness of a string that may be [null]. *)
Definition truthy_opt (o : option string) : bool :=
  match o with Some s => truthy s | None => false end.

(** ** The imported collaborators *)

Class Host := {
  (** [Uri.parse] and [uri.toString()] of the editor.  [Uri.parse] throws a
      [URIError] on some strings: [Uri_throws] tells on which, and
      [Uri_parse] is its result on the others *)
  Uri_parse : string -> Uri;
  Uri_throws : string -> bool;
  Uri_toString : Uri -> string;
  (** [product.extensionAllowedBadgeProviders || []] of product.json *)
  extensionAllowedBadgeProviders : list string;
  (** [parseTree] and [findNodeAtLocation] of jsonc-parser; [None] is
      [undefined] *)
  parseTree : string -> option JsonNode.t;
  findNodeAtLocation : option JsonNode.t -> list string -> option JsonNode.t;
  (** [markdownIt.parse(text, {})] *)
  markdownIt_parse : string -> list Token.t;
  (** the [startTag] events of parse5 for [parser.write(content); parser.end()] *)
  startTags : string -> list StartTag;
  (** [document.offsetAt(position)] for a document with the given text *)
  offsetAt : string -> Position -> Z;
  (** [path.posix.dirname] and [path.posix.join] *)
  posix_dirname : string -> string;
  posix_join : string -> string -> string
}.

(** ** The URL validator and the two scanners *)

Section Scanners.

Context `{Host}.

(** Line 16. *)
Definition allowedBadgeProviders : list string :=
  List.map toLowerCase extensionAllowedBadgeProviders.

(** [allowedBadgeProviders.indexOf(a) === -1]. *)
Definition notAllowed (a : string) : bool :=
  negb (existsb (String.eqb a) allowedBadgeProviders).

(** [addDiagnostics], lines 245-268: each test that holds pushes one
    warning at the end of [diagnostics]. *)
Definition addDiagnostics (diagnostics : list Diagnostic) (begin end_ : Z)
    (src : string) (context : Context) (info : PackageJsonInfo) : list Diagnostic :=
  let uri := Uri_parse src in
  let scheme := toLowerCase (scheme uri) in
  let diagnostics :=
    if truthy scheme && negb (String.eqb scheme "https") && negb (String.eqb scheme "data")
    then diagnostics ++ [mkDiagnostic begin end_ httpsRequired Warning]
    else diagnostics in
  let diagnostics :=
    if String.eqb scheme "data"
    then diagnostics ++ [mkDiagnostic begin end_ dataUrlsNotValid Warning]
    else diagnostics in
  let diagnostics :=
    if negb (truthy scheme) && negb (hasHttpsRepository info)
    then diagnostics ++ [mkDiagnostic begin end_ relativeUrlRequiresHttpsRepository Warning]
    else diagnostics in
  let diagnostics :=
    if endsWith (toLowerCase (path uri)) ".svg" && notAllowed (toLowerCase (authority uri))
    then diagnostics ++ [mkDiagnostic begin end_ svgsNotValid Warning]
    else diagnostics in
  diagnostics.

(** The issues of one URL: [addDiagnostics] on an empty array. *)
Definition validate (begin end_ : Z) (src : string) (context : Context)
    (info : PackageJsonInfo) : list Diagnostic :=
  addDiagnostics [] begin end_ src context info.

(** The two fields of the info as [readPackageJsonInfo] computes them,
    lines 216-221. *)
Definition computeInfo (tree : option JsonNode.t) : PackageJsonInfo :=
  let engine := match tree with
                | Some _ => findNodeAtLocation tree ["engines"; "vscode"]
                | None => None
                end in
  let repo := match tree with
              | Some _ => findNodeAtLocation tree ["repository"; "url"]
              | None => None
              end in
  {| isExtension :=
       match engine with
       | Some engine => String.eqb (JsonNode.type engine) "string"
       | None => false
       end;
     hasHttpsRepository :=
       match repo with
       | Some repo =>
           String.eqb (JsonNode.type repo) "string"
           && truthy (JsonNode.value repo)
           && String.eqb (toLowerCase (scheme (Uri_parse (JsonNode.value repo)))) "https"
       | None => false
       end |}.

(** [url && url.type === 'string'], line 115. *)
Definition isStringNode (url : option JsonNode.t) : bool :=
  match url with
  | Some url => String.eqb (JsonNode.type url) "string"
  | None => false
  end.

(** The call of [addDiagnostics] on a string node of the manifest, lines
    109 and 116: the range leaves out the first and the last character of
    the node. *)
Definition addNode (context : Context) (info : PackageJsonInfo)
    (diagnostics : list Diagnostic) (node : JsonNode.t) : list Diagnostic :=
  addDiagnostics diagnostics (JsonNode.offset node + 1)
    (JsonNode.offset node + JsonNode.length node - 1)
    (JsonNode.value node) context info.

(** The [url] nodes of the badges, lines 114-115. *)
Definition badgeUrls (badges : JsonNode.t) : list JsonNode.t :=
  omap id (List.filter isStringNode
             (List.map (fun child => findNodeAtLocation (Some child) ["url"])
                       (JsonNode.children badges))).

(** The body of the callback of [lintPackageJson] between the creation of
    [diagnostics] and its publication, lines 101-119. *)
Definition manifestDiagnostics (tree : option JsonNode.t) (info : PackageJsonInfo)
    : list Diagnostic :=
  let diagnostics := [] in
  if isExtension info then
    let icon := findNodeAtLocation tree ["icon"] in
    let diagnostics :=
      match icon with
      | Some icon =>
          if String.eqb (JsonNode.type icon) "string"
          then addNode ICON info diagnostics icon
          else diagnostics
      | None => diagnostics
      end in
    let badges := findNodeAtLocation tree ["badges"] in
    match badges with
    | Some badges =>
        if String.eqb (JsonNode.type badges) "array"
        then fold_left (addNode BADGE info) (badgeUrls badges) diagnostics
        else diagnostics
    | None => diagnostics
    end
  else diagnostics.

(** *** The position mapper, lines 144-180 *)

(** [token.type === 'image' && token.attrGet('src') || token.content],
    line 155. *)
Definition contentOf (token : Token.t) : string :=
  if String.eqb (Token.type token) "image" && truthy_opt (Token.attrGet token "src")
  then default "" (Token.attrGet token "src")
  else Token.content token.

(** One call of the callback of [tokens.map], lines 145-175: the position
    of the token and the value of the shared variable [begin] after it. *)
Definition position (text : string) (end_ : Z) (begin : Z) (token : Token.t)
    : TokenAndPosition * Z :=
  match Token.map token with
  | Some (line0, line1) =>
      let tokenBegin := offsetAt text (mkPosition line0 0) in
      let tokenEnd := offsetAt text (mkPosition line1 0) in
      (mkTnp token tokenBegin tokenEnd, tokenEnd)
  | None =>
      let content := contentOf token in
      let unresolved := (mkTnp token begin begin, begin) in
      if truthy content then
        let tokenBegin := indexOf text content begin in
        if negb (tokenBegin =? -1) then
          let tokenEnd := tokenBegin + len content in
          if tokenEnd <=? end_
          then (mkTnp token tokenBegin tokenEnd, tokenEnd)
          else unresolved
        else unresolved
      else unresolved
  end.

(** [tokens.map(...)] with the variable [begin] threaded from one token to
    the next. *)
Fixpoint mapTokens (text : string) (end_ : Z) (begin : Z) (tokens : list Token.t)
    : list TokenAndPosition :=
  match tokens with
  | [] => []
  | token :: rest =>
      let '(tnp, begin') := position text end_ begin token in
      tnp :: mapTokens text end_ begin' rest
  end.

(** The value of [begin] after the whole level. *)
Fixpoint cursorAfter (text : string) (end_ : Z) (begin : Z) (tokens : list Token.t) : Z :=
  match tokens with
  | [] => begin
  | token :: rest => cursorAfter text end_ (snd (position text end_ begin token)) rest
  end.

(** [tnp.token.children && tnp.token.children.length], line 177. *)
Definition hasChildren (tnp : TokenAndPosition) : bool :=
  match Token.children (TokenAndPosition.token tnp) with [] => false | _ => true end.

(** [toTokensAndPositions] applied to the children of [parent] with the
    bounds [begin] and [end_]: the positions of the level, followed by the
    results for the children of each positioned token that has some.  The
    recursion is on the token tree; [toTokensAndPositions_eq] gives the
    equation in the shape of lines 176-179. *)
Fixpoint descend (text : string) (parent : Token.t) (begin end_ : Z) {struct parent}
    : list TokenAndPosition :=
  let tokensAndPositions := mapTokens text end_ begin (Token.children parent) in
  tokensAndPositions ++
    (fix inner (tokens : list Token.t) (tnps : list TokenAndPosition) {struct tokens}
       : list TokenAndPosition :=
       match tokens, tnps with
       | child :: tokens', tnp :: tnps' =>
           (if hasChildren tnp then descend text child (TokenAndPosition.begin tnp) (TokenAndPosition.end_ tnp) else [])
             ++ inner tokens' tnps'
       | _, _ => []
       end) (Token.children parent) tokensAndPositions.

(** The artificial root that holds the top-level tokens. *)
Definition rootOf (tokens : list Token.t) : Token.t :=
  Token.mk "" None [] "" tokens.

Definition toTokensAndPositions (text : string) (tokens : list Token.t) (begin end_ : Z)
    : list TokenAndPosition :=
  descend text (rootOf tokens) begin end_.

(** *** The prose scanner, lines 142-209 *)

(** Lines 184-191. *)
Definition isImage (tnp : TokenAndPosition) : bool :=
  String.eqb (Token.type (TokenAndPosition.token tnp)) "image"
  && truthy_opt (Token.attrGet (TokenAndPosition.token tnp) "src").

Definition addImage (text : string) (info : PackageJsonInfo)
    (diagnostics : list Diagnostic) (inp : TokenAndPosition) : list Diagnostic :=
  let src := default "" (Token.attrGet (TokenAndPosition.token inp) "src") in
  let begin_ := indexOf text src (TokenAndPosition.begin inp) in
  if negb (begin_ =? -1) && (begin_ <? TokenAndPosition.end_ inp)
  then addDiagnostics diagnostics begin_ (begin_ + len src) src MARKDOWN info
  else diagnostics.

(** Lines 193-209. *)
Definition isText (tnp : TokenAndPosition) : bool :=
  String.eqb (Token.type (TokenAndPosition.token tnp)) "text" && truthy (Token.content (TokenAndPosition.token tnp)).

(** The [startTag] listener, lines 196-206. *)
Definition onStartTag (text : string) (info : PackageJsonInfo) (tnp : TokenAndPosition)
    (diagnostics : list Diagnostic) (tag : StartTag) : list Diagnostic :=
  if String.eqb (name tag) "img" then
    match List.find (fun a => String.eqb (fst a) "src") (tag_attrs tag) with
    | Some src =>
        if truthy (snd src) then
          let begin_ := indexOf text (snd src) (TokenAndPosition.begin tnp + startOffset tag) in
          if negb (begin_ =? -1) && (begin_ <? TokenAndPosition.end_ tnp)
          then addDiagnostics diagnostics begin_ (begin_ + len (snd src)) (snd src) MARKDOWN info
          else diagnostics
        else diagnostics
    | None => diagnostics
    end
  else diagnostics.

Definition addText (text : string) (info : PackageJsonInfo)
    (diagnostics : list Diagnostic) (tnp : TokenAndPosition) : list Diagnostic :=
  fold_left (onStartTag text info tnp) (startTags (Token.content (TokenAndPosition.token tnp))) diagnostics.

(** The diagnostics of a prose document of an extension, lines 142-209. *)
Definition proseDiagnostics (text : string) (info : PackageJsonInfo) : list Diagnostic :=
  let tokens := markdownIt_parse text in
  let tokensAndPositions := toTokensAndPositions text tokens 0 (len text) in
  let diagnostics := [] in
  let diagnostics :=
    fold_left (addImage text info) (List.filter isImage tokensAndPositions) diagnostics in
  let diagnostics :=
    fold_left (addText text info) (List.filter isText tokensAndPositions) diagnostics in
  diagnostics.

End Scanners.

(** ** The orchestrator *)

(** A [TextDocument] object of the editor: [objectId] is the identity of
    the object, [uri] and [languageId] its two constant properties.  What
    changes while the object lives ([isClosed], [getText()]) is read from the
    [Workspace]. *)
Record TextDocument := mkDocument {
  objectId : nat;
  uri : Uri;
  languageId : string
}.

#[global] Instance TextDocument_eq_dec : EqDecision TextDocument.
Proof. solve_decision. Defined.

(** The state of the editor when a callback of the linter runs. *)
Record Workspace := mkWorkspace {
  (** [workspace.textDocuments] *)
  textDocuments : list TextDocument;
  (** [document.isClosed] and [document.getText()] *)
  isClosed : TextDocument -> bool;
  getText : TextDocument -> string;
  (** [workspace.openTextDocument(uri)] followed by [getText()]: [None] when
      the promise is rejected *)
  openTextDocument : Uri -> option string
}.

#[global] Instance Uri_countable : Countable Uri.
Proof.
  refine (inj_countable'
            (fun u => (scheme u, authority u, path u, query u, fragment u))
            (fun t => let '(s, a, p, q, f) := t in mkUri s a p q f) _).
  by intros [].
Defined.

(** The fields of the class [ExtensionLinter], lines 44-51.  The two queues
    are JavaScript [Set]s: lists without duplicates, in insertion order.
    [timer] tells whether a timeout is pending. *)
Record ExtensionLinter := mkLinter {
  diagnosticsCollection : gmap Uri (list Diagnostic);
  folderToPackageJsonInfo : gmap string PackageJsonInfo;
  packageJsonQ : list TextDocument;
  readmeQ : list TextDocument;
  timer : bool
}.

(** [Set.prototype.add] and [Set.prototype.delete]. *)
Definition set_add (document : TextDocument) (q : list TextDocument) : list TextDocument :=
  if decide (document ∈ q) then q else q ++ [document].

Definition set_delete (document : TextDocument) (q : list TextDocument) : list TextDocument :=
  List.filter (fun d => bool_decide (d ≠ document)) q.

Definition with_diagnostics (f : gmap Uri (list Diagnostic) -> gmap Uri (list Diagnostic))
    (st : ExtensionLinter) : ExtensionLinter :=
  mkLinter (f (diagnosticsCollection st)) (folderToPackageJsonInfo st)
           (packageJsonQ st) (readmeQ st) (timer st).

Definition with_info (f : gmap string PackageJsonInfo -> gmap string PackageJsonInfo)
    (st : ExtensionLinter) : ExtensionLinter :=
  mkLinter (diagnosticsCollection st) (f (folderToPackageJsonInfo st))
           (packageJsonQ st) (readmeQ st) (timer st).

Definition with_packageJsonQ (f : list TextDocument -> list TextDocument)
    (st : ExtensionLinter) : ExtensionLinter :=
  mkLinter (diagnosticsCollection st) (folderToPackageJsonInfo st)
           (f (packageJsonQ st)) (readmeQ st) (timer st).

Definition with_readmeQ (f : list TextDocument -> list TextDocument)
    (st : ExtensionLinter) : ExtensionLinter :=
  mkLinter (diagnosticsCollection st) (folderToPackageJsonInfo st)
           (packageJsonQ st) (f (readmeQ st)) (timer st).

(** [startTimer], lines 79-87: the pending timeout, if any, is replaced by a
    new one. *)
Definition startTimer (st : ExtensionLinter) : ExtensionLinter :=
  mkLinter (diagnosticsCollection st) (folderToPackageJsonInfo st)
           (packageJsonQ st) (readmeQ st) true.

Definition isPackageJson (document : TextDocument) : bool :=
  String.eqb (languageId document) "json"
  && endsWith (path (uri document)) "/package.json".

Definition isReadme (document : TextDocument) : bool :=
  String.eqb (languageId document) "markdown"
  && (endsWith (toLowerCase (path (uri document))) "/readme.md"
      || endsWith (toLowerCase (path (uri document))) "/changelog.md").

(** The documents the linter reads. *)
Definition linted (document : TextDocument) : bool :=
  isPackageJson document || isReadme document.

(** [queueReadme], lines 71-77. *)
Definition queueReadme (document : TextDocument) (st : ExtensionLinter) : ExtensionLinter :=
  if isReadme document
  then startTimer (with_readmeQ (set_add document) st)
  else st.

(** [queue], lines 62-69. *)
Definition queue (document : TextDocument) (st : ExtensionLinter) : ExtensionLinter :=
  let st :=
    if isPackageJson document
    then startTimer (with_packageJsonQ (set_add document) st)
    else st in
  queueReadme document st.

(** [clear], lines 270-273. *)
Definition clear (document : TextDocument) (st : ExtensionLinter) : ExtensionLinter :=
  with_packageJsonQ (set_delete document)
    (with_diagnostics (delete (uri document)) st).

(** The invariant of the linter: the queues hold linted documents only, and
    issues are published for the URIs of linted documents only. *)
Definition invariant (st : ExtensionLinter) : Prop :=
  Forall (fun d => isPackageJson d = true) (packageJsonQ st) /\
  Forall (fun d => isReadme d = true) (readmeQ st) /\
  forall u ds, diagnosticsCollection st !! u = Some ds ->
               exists d, uri d = u /\ linted d = true.

Section Orchestrator.

Context `{Host}.

(** [getUriFolder], lines 241-243. *)
Definition getUriFolder (uri : Uri) : Uri :=
  with_path uri (posix_dirname (path uri)).

(** [readPackageJsonInfo], lines 215-230. *)
Definition readPackageJsonInfo (ws : Workspace) (folder : Uri)
    (tree : option JsonNode.t) (st : ExtensionLinter) : PackageJsonInfo * ExtensionLinter :=
  let info := computeInfo tree in
  let str := Uri_toString folder in
  let oldInfo := folderToPackageJsonInfo st !! str in
  let st :=
    match oldInfo with
    | Some oldInfo =>
        if negb (Bool.eqb (isExtension oldInfo) (isExtension info))
           || negb (Bool.eqb (hasHttpsRepository oldInfo) (hasHttpsRepository info))
        then fold_left (fun st document => queueReadme document st)
               (List.filter
                  (fun document =>
                     String.eqb (toLowerCase (Uri_toString (getUriFolder (uri document))))
                                (toLowerCase str))
                  (textDocuments ws))
               st
        else st
    | None => st
    end in
  (info, with_info (insert str info) st).

(** The URI of the manifest of a folder, line 234. *)
Definition manifestUri (folder : Uri) : Uri :=
  with_path folder (posix_join (path folder) "package.json").

(** [loadPackageJson], lines 232-239: a rejected promise or a failure of the
    parser is caught and gives [undefined]. *)
Definition loadPackageJson (ws : Workspace) (folder : Uri) : option JsonNode.t :=
  match openTextDocument ws (manifestUri folder) with
  | Some text => parseTree text
  | None => None
  end.

(** The callback of [packageJsonQ.forEach], lines 95-121. *)
Definition lintPackageJsonDocument (ws : Workspace) (st : ExtensionLinter)
    (document : TextDocument) : ExtensionLinter :=
  let st := with_packageJsonQ (set_delete document) st in
  if isClosed ws document then st
  else
    let tree := parseTree (getText ws document) in
    let '(info, st) := readPackageJsonInfo ws (getUriFolder (uri document)) tree st in
    let diagnostics := manifestDiagnostics tree info in
    with_diagnostics (insert (uri document) diagnostics) st.

(** [lintPackageJson], lines 94-122. *)
Definition lintPackageJson (ws : Workspace) (st : ExtensionLinter) : ExtensionLinter :=
  fold_left (lintPackageJsonDocument ws) (packageJsonQ st) st.

(** The loop of [lintReadme], lines 125-212, over the array made from
    [readmeQ].  The two [return] statements leave the function: the rest of
    the array is not visited.  The [await] of line 134 is taken as one step:
    the workspace is the same before and after the load. *)
Fixpoint lintReadmeLoop (ws : Workspace) (documents : list TextDocument)
    (st : ExtensionLinter) : ExtensionLinter :=
  match documents with
  | [] => st
  | document :: rest =>
      let st := with_readmeQ (set_delete document) st in
      if isClosed ws document then st
      else
        let folder := getUriFolder (uri document) in
        let '(info, st) :=
          match folderToPackageJsonInfo st !! Uri_toString folder with
          | Some info => (info, st)
          | None => readPackageJsonInfo ws folder (loadPackageJson ws folder) st
          end in
        if negb (isExtension info)
        then with_diagnostics (insert (uri document) []) st
        else
          let text := getText ws document in
          let diagnostics := proseDiagnostics text info in
          lintReadmeLoop ws rest (with_diagnostics (insert (uri document) diagnostics) st)
  end.

(** [lintReadme], lines 124-213. *)
Definition lintReadme (ws : Workspace) (st : ExtensionLinter) : ExtensionLinter :=
  lintReadmeLoop ws (readmeQ st) st.

(** [lint], lines 89-92. *)
Definition lint (ws : Workspace) (st : ExtensionLinter) : ExtensionLinter :=
  lintReadme ws (lintPackageJson ws st).

(** The notifications the constructor subscribes to, lines 55-57, and the
    expiry of the timeout of [startTimer]. *)
Inductive Event :=
| onDidOpenTextDocument (document : TextDocument)
| onDidChangeTextDocument (document : TextDocument)
| onDidCloseTextDocument (document : TextDocument)
| timeout.

(** The callback of the timeout, lines 83-86. *)
Definition fire (ws : Workspace) (st : ExtensionLinter) : ExtensionLinter :=
  lint ws (mkLinter (diagnosticsCollection st) (folderToPackageJsonInfo st)
                    (packageJsonQ st) (readmeQ st) false).

Definition step (ws : Workspace) (st : ExtensionLinter) (e : Event) : ExtensionLinter :=
  match e with
  | onDidOpenTextDocument document => queue document st
  | onDidChangeTextDocument document => queue document st
  | onDidCloseTextDocument document => clear document st
  | timeout => if timer st then fire ws st else st
  end.

(** The state the constructor leaves, lines 44-60. *)
Definition empty_linter : ExtensionLinter := mkLinter ∅ ∅ [] [] false.

Definition constructor (ws : Workspace) : ExtensionLinter :=
  fold_left (fun st document => queue document st) (textDocuments ws) empty_linter.

(** The states of a linter: the constructor, then one callback at a time,
    each in the workspace of its moment. *)
Inductive reachable : ExtensionLinter -> Prop :=
| reachable_constructor ws : reachable (constructor ws)
| reachable_step ws st e : reachable st -> reachable (step ws st e).

End Orchestrator.

(** ** What a manifest scan reports *)

Section Reported.

Context `{Host}.

(** The string nodes a manifest scan hands to the validator, with their
    context: the [icon] node, then the [url] node of each badge. *)
Definition reportedNodes (tree : option JsonNode.t) : list (Context * JsonNode.t) :=
  (match findNodeAtLocation tree ["icon"] with
   | Some icon => if String.eqb (JsonNode.type icon) "string" then [(ICON, icon)] else []
   | None => []
   end)
  ++
  (match findNodeAtLocation tree ["badges"] with
   | Some badges =>
       if String.eqb (JsonNode.type badges) "array"
       then List.map (fun url => (BADGE, url)) (badgeUrls badges)
       else []
   | None => []
   end).

(** The issues of a reported node. *)
Definition nodeIssues (info : PackageJsonInfo) (r : Context * JsonNode.t) : list Diagnostic :=
  validate (JsonNode.offset (snd r) + 1)
           (JsonNode.offset (snd r) + JsonNode.length (snd r) - 1)
           (JsonNode.value (snd r)) (fst r) info.

End Reported.

(** The range of an issue lies within a text. *)
Definition within (text : string) (d : Diagnostic) : Prop :=
  0 <= range_begin d /\ range_begin d <= range_end d /\ range_end d <= len text.


(** The derived content of a token in the words of the specification: "an
    image token's [src] attribute if present, otherwise its plain content
    string".  [contentOf] is what the source computes. *)
Definition derivedContent (token : Token.t) : string :=
  if String.eqb (Token.type token) "image" then
    match Token.attrGet token "src" with
    | Some src => src
    | None => Token.content token
    end
  else Token.content token.

(** ** An implementation of the collaborators

    The examples, the witnesses and the counterexamples below run the linter
    on concrete documents.  They need one implementation of [Host]; this
    module gives it. *)

Module Model.

Local Open Scope char_scope.

Definition ascii_in (cs : list ascii) (c : ascii) : bool :=
  existsb (Ascii.eqb c) cs.

(** The longest prefix of [s] whose characters satisfy [p], and the rest. *)
Fixpoint span (p : ascii -> bool) (s : string) : string * string :=
  match s with
  | EmptyString => (EmptyString, EmptyString)
  | String c s' =>
      if p c then let '(a, b) := span p s' in (String c a, b)
      else (EmptyString, s)
  end.

(** Modelled from the spec: [Uri.parse] is not part of the source.  "Scheme,
    authority and path are derived via strict URL parsing": the string is
    split as in RFC 3986, appendix B: the scheme is what stands before the
    first [:] when no [/], [?] or [#] comes earlier, the authority follows
    [//], the path runs up to [?] or [#].  No component is decoded. *)
Definition uri_parse (src : string) : Uri :=
  let '(s, rest) := span (fun c => negb (ascii_in [":"; "/"; "?"; "#"] c)) src in
  let '(scheme, rest) :=
    match s, rest with
    | String _ _, String ":" rest' => (s, rest')
    | _, _ => (EmptyString, src)
    end in
  let '(authority, rest) :=
    match rest with
    | String "/" (String "/" rest') =>
        span (fun c => negb (ascii_in ["/"; "?"; "#"] c)) rest'
    | _ => (EmptyString, rest)
    end in
  let '(path, rest) := span (fun c => negb (ascii_in ["?"; "#"] c)) rest in
  let '(query, rest) :=
    match rest with
    | String "?" rest' => span (fun c => negb (Ascii.eqb c "#")) rest'
    | _ => (EmptyString, rest)
    end in
  let fragment := match rest with String "#" rest' => rest' | _ => EmptyString end in
  mkUri scheme authority path query fragment.

Definition is_hex (c : ascii) : bool :=
  ascii_in ["0"; "1"; "2"; "3"; "4"; "5"; "6"; "7"; "8"; "9";
            "a"; "b"; "c"; "d"; "e"; "f"; "A"; "B"; "C"; "D"; "E"; "F"] c.

(** The strings on which the [Uri.parse] of the examples throws.
    [Uri.parse] is not part of the source; the one of the editor decodes the
    percent escapes of the components with [decodeURIComponent], which
    throws a [URIError] on a [%] that two hexadecimal digits do not
    follow. *)
Fixpoint uri_throws (src : string) : bool :=
  match src with
  | EmptyString => false
  | String c rest =>
      if Ascii.eqb c "%" then
        match rest with
        | String h1 (String h2 _) => negb (is_hex h1 && is_hex h2) || uri_throws rest
        | _ => true
        end
      else uri_throws rest
  end.

(** Modelled from the spec: [uri.toString()] is not part of the source.  The
    "folder identity, scheme-qualified" is the scheme, the authority and the
    path of the folder. *)
Definition uri_toString (u : Uri) : string :=
  (scheme u ++ "://" ++ authority u ++ path u)%string.

(** *** A reader of JSON *)

Definition is_ws (c : ascii) : bool := ascii_in [" "; "009"; "010"; "013"] c.

Fixpoint skip_ws (s : string) (pos : Z) : string * Z :=
  match s with
  | String c s' => if is_ws c then skip_ws s' (pos + 1) else (s, pos)
  | EmptyString => (s, pos)
  end.

Definition unescape (c : ascii) : option ascii :=
  if ascii_in ["034"; "\"; "/"] c then Some c
  else if Ascii.eqb c "n" then Some "010"
  else if Ascii.eqb c "r" then Some "013"
  else if Ascii.eqb c "t" then Some "009"
  else None.

(** The rest of a string literal after its opening quote at [pos - 1]:
    the value, what follows the literal and the offset there.  As the
    scanner of jsonc-parser, a literal that the end of the line or of the
    text interrupts ends there, without a closing quote. *)
Fixpoint scan_string (s : string) (pos : Z) : option (string * string * Z) :=
  match s with
  | EmptyString => Some (EmptyString, s, pos)
  | String c s' =>
      if Ascii.eqb c "034" then Some (EmptyString, s', pos + 1)
      else if ascii_in ["010"; "013"] c then Some (EmptyString, s, pos)
      else if Ascii.eqb c "\" then
        match s' with
        | String e s'' =>
            c' ← unescape e;
            '(v, rest, p) ← scan_string s'' (pos + 2);
            Some (String c' v, rest, p)
        | EmptyString => None
        end
      else
        '(v, rest, p) ← scan_string s' (pos + 1);
        Some (String c v, rest, p)
  end.

Definition literal (kind word : string) (s : string) (pos : Z)
    : option (JsonNode.t * string * Z) :=
  if String.prefix word s
  then Some (JsonNode.mk kind pos (len word) EmptyString [],
             drop (String.length word) s, pos + len word)
  else None.

Definition number (s : string) (pos : Z) : option (JsonNode.t * string * Z) :=
  let '(digits, rest) :=
    span (ascii_in ["-"; "+"; "."; "e"; "E"; "0"; "1"; "2"; "3"; "4"; "5"; "6"; "7"; "8"; "9"]) s in
  match digits with
  | EmptyString => None
  | _ => Some (JsonNode.mk "number" pos (len digits) EmptyString [], rest, pos + len digits)
  end.

(** A value that starts at offset [pos] of the text, [s] being the text
    from there.  A string node runs from its opening to its closing
    quote; a property node holds the node of the key and the node of the
    value and runs from the first to the end of the second. *)
Fixpoint parse_value (fuel : nat) (s : string) (pos : Z) {struct fuel}
    : option (JsonNode.t * string * Z) :=
  match fuel with
  | O => None
  | S fuel =>
      match s with
      | String "{" s' =>
          let '(s1, p1) := skip_ws s' (pos + 1) in
          match s1 with
          | String "}" s2 =>
              Some (JsonNode.mk "object" pos (p1 + 1 - pos) EmptyString [], s2, p1 + 1)
          | _ =>
              '(props, s2, p2) ← parse_members fuel s1 p1;
              Some (JsonNode.mk "object" pos (p2 - pos) EmptyString props, s2, p2)
          end
      | String "[" s' =>
          let '(s1, p1) := skip_ws s' (pos + 1) in
          match s1 with
          | String "]" s2 =>
              Some (JsonNode.mk "array" pos (p1 + 1 - pos) EmptyString [], s2, p1 + 1)
          | _ =>
              '(items, s2, p2) ← parse_elements fuel s1 p1;
              Some (JsonNode.mk "array" pos (p2 - pos) EmptyString items, s2, p2)
          end
      | String "034" s' =>
          '(v, rest, p) ← scan_string s' (pos + 1);
          Some (JsonNode.mk "string" pos (p - pos) v [], rest, p)
      | _ =>
          match literal "boolean" "true" s pos with
          | Some r => Some r
          | None =>
              match literal "boolean" "false" s pos with
              | Some r => Some r
              | None =>
                  match literal "null" "null" s pos with
                  | Some r => Some r
                  | None => number s pos
                  end
              end
          end
      end
  end
with parse_members (fuel : nat) (s : string) (pos : Z) {struct fuel}
    : option (list JsonNode.t * string * Z) :=
  match fuel with
  | O => None
  | S fuel =>
      match s with
      | String "034" s' =>
          '(k, s1, p1) ← scan_string s' (pos + 1);
          let key := JsonNode.mk "string" pos (p1 - pos) k [] in
          let '(s2, p2) := skip_ws s1 p1 in
          match s2 with
          | String ":" s3 =>
              let '(s3, p3) := skip_ws s3 (p2 + 1) in
              '(v, s4, p4) ← parse_value fuel s3 p3;
              let property := JsonNode.mk "property" pos (p4 - pos) EmptyString [key; v] in
              let '(s5, p5) := skip_ws s4 p4 in
              match s5 with
              | String "," s6 =>
                  let '(s7, p7) := skip_ws s6 (p5 + 1) in
                  '(rest, s8, p8) ← parse_members fuel s7 p7;
                  Some (property :: rest, s8, p8)
              | String "}" s6 => Some ([property], s6, p5 + 1)
              | _ => None
              end
          | _ => None
          end
      | _ => None
      end
  end
with parse_elements (fuel : nat) (s : string) (pos : Z) {struct fuel}
    : option (list JsonNode.t * string * Z) :=
  match fuel with
  | O => None
  | S fuel =>
      '(v, s1, p1) ← parse_value fuel s pos;
      let '(s2, p2) := skip_ws s1 p1 in
      match s2 with
      | String "," s3 =>
          let '(s4, p4) := skip_ws s3 (p2 + 1) in
          '(rest, s5, p5) ← parse_elements fuel s4 p4;
          Some (v :: rest, s5, p5)
      | String "]" s3 => Some ([v], s3, p2 + 1)
      | _ => None
      end
  end.

(** Modelled from the spec: [parseTree] of jsonc-parser is not part of the
    source.  "Parses it into a tolerant syntax tree"; "an implementer may
    instead require strict syntax and surface a parse-failure path that
    yields zero findings": the reader accepts JSON without comments,
    tolerates a string literal without its closing quote and answers [None]
    for every other text. *)
Definition json_parseTree (text : string) : option JsonNode.t :=
  let '(s, p) := skip_ws text 0 in
  '(node, rest, p') ← parse_value (S (String.length text)) s p;
  match fst (skip_ws rest p') with
  | EmptyString => Some node
  | _ => None
  end.

(** The value of the property [segment] of an object node. *)
Definition property_value (segment : string) (node : JsonNode.t) : option JsonNode.t :=
  if String.eqb (JsonNode.type node) "object" then
    match List.find
            (fun property =>
               match JsonNode.children property with
               | key :: _ => String.eqb (JsonNode.value key) segment
               | [] => false
               end) (JsonNode.children node) with
    | Some property => JsonNode.children property !! 1%nat
    | None => None
    end
  else None.

(** Modelled from the spec: [findNodeAtLocation] of jsonc-parser is not
    part of the source.  The node of "the [icon] field", of
    "[engines.vscode]": from the root, each segment selects the value of
    the first property of that name. *)
Fixpoint json_findNodeAtLocation (root : option JsonNode.t) (segments : list string)
    : option JsonNode.t :=
  match segments with
  | [] => root
  | segment :: segments' =>
      json_findNodeAtLocation (root ≫= property_value segment) segments'
  end.

(** *** Lines and paths *)

(** The offset at which line [line] starts, counted from [pos]. *)
Fixpoint lineStart (s : string) (line : nat) (pos : Z) : Z :=
  match s with
  | EmptyString => pos
  | String c s' =>
      match line with
      | O => pos
      | S line' =>
          if Ascii.eqb c "010" then lineStart s' line' (pos + 1)
          else lineStart s' line (pos + 1)
      end
  end.

(** Modelled from the spec: [document.offsetAt] is not part of the source.
    "A line-to-offset mapping service": the offset of the start of the
    line, clamped to the text, plus the character. *)
Definition line_offsetAt (text : string) (p : Position) : Z :=
  Z.min (lineStart text (Z.to_nat (line p)) 0 + Z.max 0 (character p)) (len text).

Definition is_slash (c : ascii) : bool := Ascii.eqb c "/".

Fixpoint dropWhile (p : ascii -> bool) (cs : list ascii) : list ascii :=
  match cs with
  | c :: cs' => if p c then dropWhile p cs' else cs
  | [] => []
  end.

(** Modelled from the spec: [path.posix.dirname] is not part of the source.
    "The document's parent directory": the path without its last segment. *)
Definition dirname (p : string) : string :=
  let r := dropWhile is_slash (rev (list_ascii_of_string p)) in
  let r := dropWhile (fun c => negb (is_slash c)) r in
  match r with
  | [] => "."%string
  | _ =>
      match dropWhile is_slash r with
      | [] => "/"%string
      | r' => string_of_list_ascii (rev r')
      end
  end.

(** Modelled from the spec: [path.posix.join] is not part of the source.
    The "manifest file" of a folder is the file of that name in it. *)
Definition join (folder file : string) : string :=
  if String.eqb folder "/" then ("/" ++ file)%string
  else (folder ++ "/" ++ file)%string.

(** *** Markdown and HTML *)

Fixpoint lookup_text {A} (table : list (string * list A)) (text : string) : list A :=
  match table with
  | [] => []
  | (t, r) :: table' => if String.eqb t text then r else lookup_text table' text
  end.

(** Modelled from the spec: markdown-it, parse5 and product.json are not
    part of the source.  The host of an example is given the allow-list,
    the token trees of "a standard block/inline Markdown parser" for the
    texts of the example and the start tags of "a permissive HTML tag
    scanner" for the contents of its text tokens. *)
Definition host (allowed : list string) (markdown : list (string * list Token.t))
    (html : list (string * list StartTag)) : Host :=
  {| Uri_parse := uri_parse;
     Uri_throws := uri_throws;
     Uri_toString := uri_toString;
     extensionAllowedBadgeProviders := allowed;
     parseTree := json_parseTree;
     findNodeAtLocation := json_findNodeAtLocation;
     markdownIt_parse := lookup_text markdown;
     startTags := lookup_text html;
     offsetAt := line_offsetAt;
     posix_dirname := dirname;
     posix_join := join |}.

End Model.

(** ** Documents of the examples *)

(** The host of the examples that read no Markdown: the allow-list is
    empty. *)
Definition plainHost : Host := Model.host [] [] [].


Definition noRepository : PackageJsonInfo := mkInfo true false.

(** A string between quotation marks (the character of code 34). *)
Definition quoted (s : string) : string :=
  String "034" (String.append s (String "034" "")).

(** The manifest of the round-trip example, open in the editor as
    [/ext/package.json]. *)
Definition manifest1 : string :=
  String.concat ""
    ["{"; quoted "engines"; ":{"; quoted "vscode"; ":"; quoted "^1.0.0"; "},";
     quoted "icon"; ":"; quoted "http://x.com/a.png"; "}"].

Definition file (path : string) : Uri := mkUri "file" "" path "" "".

Definition packageJson : TextDocument := mkDocument 1 (file "/ext/package.json") "json".

Definition workspace1 : Workspace :=
  mkWorkspace [packageJson] (fun _ => false) (fun _ => manifest1) (fun _ => None).

(** A manifest in the middle of an edit: the value of [icon] has its opening
    quote only. *)
Definition manifest2 : string :=
  String.concat ""
    ["{"; quoted "engines"; ":{"; quoted "vscode"; ":"; quoted "^1.0.0"; "},";
     quoted "icon"; ":"; String "034" (String "010" "}")].

Definition workspace2 : Workspace :=
  mkWorkspace [packageJson] (fun _ => false) (fun _ => manifest2) (fun _ => None).

(** ** Prose of the examples *)

(** The tokens markdown-it makes of a paragraph of one line: the inline
    token carries the line range and the children, the closing token has
    neither line range nor content. *)
Definition paragraph (content : string) (children : list Token.t) : list Token.t :=
  [Token.mk "paragraph_open" (Some (0, 1)) [] "" [];
   Token.mk "inline" (Some (0, 1)) [] content children;
   Token.mk "paragraph_close" None [] "" []].

(** The token of [![alt](src)]: the content is the alternative text. *)
Definition image (src alt : string) : Token.t :=
  Token.mk "image" None [("src", src); ("alt", "")] alt [Token.mk "text" None [] alt []].

Definition textToken (content : string) : Token.t :=
  Token.mk "text" None [] content [].

(** An image whose destination is empty. *)
Definition emptyImage : string := "![alt]()".

(** One image of an insecure source. *)
Definition readme1 : string := "![logo](http://x.com/logo.png)".

(** An [img] tag in a paragraph; markdown-it keeps it as text. *)
Definition readme2 : string :=
  String.concat "" ["<img src="; quoted "data:image/png;base64,AAA"; ">"].

Definition proseHost : Host :=
  Model.host []
    [(emptyImage, paragraph emptyImage [image "" "alt"]);
     (readme1, paragraph readme1 [image "http://x.com/logo.png" "logo"]);
     (readme2, paragraph readme2 [textToken readme2])]
    [(readme2, [mkStartTag "img" [("src", "data:image/png;base64,AAA")] 0])].

(** ** Workspaces of the examples *)

Definition readme : TextDocument := mkDocument 2 (file "/ext/README.md") "markdown".

Definition changelog : TextDocument := mkDocument 3 (file "/ext/CHANGELOG.md") "markdown".

Definition notes : TextDocument := mkDocument 4 (file "/ext/notes.txt") "plaintext".

(** The three documents of the extension are open; the prose documents hold
    the text [readme1]. *)
Definition texts (document : TextDocument) : string :=
  if decide (document = packageJson) then manifest1 else readme1.

Definition workspace3 : Workspace :=
  mkWorkspace [packageJson; readme; changelog] (fun _ => false) texts
    (fun u => if decide (u = file "/ext/package.json") then Some manifest1 else None).

(** The manifest was closed and its file deleted. *)
Definition workspace4 : Workspace :=
  mkWorkspace [readme; changelog] (fun d => bool_decide (d = packageJson)) texts
    (fun _ => None).

(** The README was closed. *)
Definition workspace5 : Workspace :=
  mkWorkspace [packageJson; changelog] (fun d => bool_decide (d = readme)) texts
    (fun u => if decide (u = file "/ext/package.json") then Some manifest1 else None).

(** A run: the constructor and the first timeout with everything open; then
    the manifest is closed and deleted, the README is closed, which clears
    its issues, and opened again, and the timeout expires. *)
Definition run1 : ExtensionLinter :=
  @step proseHost workspace3 (constructor workspace3) timeout.

Definition run2 : ExtensionLinter :=
  @step proseHost workspace4
    (@step proseHost workspace4
       (@step proseHost workspace4
          (@step proseHost workspace4 run1 (onDidCloseTextDocument packageJson))
          (onDidCloseTextDocument readme))
       (onDidOpenTextDocument readme))
    timeout.

(** Another run: the README is closed before the first timeout. *)
Definition closedReadme : ExtensionLinter :=
  @step proseHost workspace5 (constructor workspace3) (onDidCloseTextDocument readme).

Definition run3 : ExtensionLinter :=
  @step proseHost workspace5 closedReadme timeout.

(** A README of a folder without manifest, opened before the changelog of
    the extension. *)
Definition otherReadme : TextDocument := mkDocument 5 (file "/other/README.md") "markdown".

Definition workspace6 : Workspace :=
  mkWorkspace [otherReadme; changelog] (fun _ => false) texts
    (fun u => if decide (u = file "/ext/package.json") then Some manifest1 else None).

Definition run4 : ExtensionLinter :=
  @step proseHost workspace6 (constructor workspace6) timeout.

(** ** Further definitions for the properties of the code *)

(** The combinations of messages one URL can get, lines 249-267. *)
Definition possibleKinds : list (list Message) :=
  [ [];
    [svgsNotValid];
    [httpsRequired];
    [httpsRequired; svgsNotValid];
    [dataUrlsNotValid];
    [dataUrlsNotValid; svgsNotValid];
    [relativeUrlRequiresHttpsRepository];
    [relativeUrlRequiresHttpsRepository; svgsNotValid] ].

(** Every token below [parent], level by level in the order of lines
    176-179: the children, then what is below each child. *)
Fixpoint flatten (parent : Token.t) : list Token.t :=
  Token.children parent ++ flat_map flatten (Token.children parent).

(** A manifest that is not JSON, open as [/ext/package.json]. *)
Definition workspace7 : Workspace :=
  mkWorkspace [packageJson] (fun _ => false) (fun _ => "{"%string) (fun _ => None).

(** [document.uri] of each document of a queue. *)
Definition uris (documents : list TextDocument) : list Uri := List.map uri documents.

(** The documents of the workspace that [readPackageJsonInfo] hands to
    [queueReadme] for a folder, lines 225-226. *)
Definition inFolder `{Host} (ws : Workspace) (folder : Uri) : list TextDocument :=
  List.filter
    (fun document =>
       String.eqb (toLowerCase (Uri_toString (getUriFolder (uri document))))
                  (toLowerCase (Uri_toString folder)))
    (textDocuments ws).

(** The workspace with another answer of [workspace.openTextDocument]. *)
Definition with_openTextDocument (ws : Workspace) (open : Uri -> option string)
    : Workspace :=
  mkWorkspace (textDocuments ws) (isClosed ws) (getText ws) open.

(** Every document of the list is open and its folder is cached as an
    extension. *)
Definition cachedExtensions `{Host} (ws : Workspace) (st : ExtensionLinter)
    (documents : list TextDocument) : Prop :=
  forall d, In d documents ->
    isClosed ws d = false /\
    exists info,
      folderToPackageJsonInfo st !! Uri_toString (getUriFolder (uri d)) = Some info /\
      isExtension info = true.

(** The state after the manifest scan of the first timeout of [run1]. *)
Definition afterManifests : ExtensionLinter :=
  @lintPackageJson proseHost workspace3 (constructor workspace3).

(** Spans that follow each other from the cursor [c] on: each starts at or
    after the end of the one before and does not end before it starts. *)
Fixpoint inOrder (c : Z) (tnps : list TokenAndPosition) : Prop :=
  match tnps with
  | [] => True
  | tnp :: rest =>
      c <= TokenAndPosition.begin tnp /\
      TokenAndPosition.begin tnp <= TokenAndPosition.end_ tnp /\
      inOrder (TokenAndPosition.end_ tnp) rest
  end.

(** Both ends of a span are offsets of the text. *)
Definition spanInText (text : string) (tnp : TokenAndPosition) : Prop :=
  0 <= TokenAndPosition.begin tnp <= len text /\
  0 <= TokenAndPosition.end_ tnp <= len text.

Section MapperDefinitions.

Context `{Host}.

(** The recursive calls of lines 177-178 on the positions of a level. *)
Definition deeper (text : string) (tnps : list TokenAndPosition) : list TokenAndPosition :=
  flat_map (fun tnp =>
              if hasChildren tnp
              then descend text (TokenAndPosition.token tnp)
                     (TokenAndPosition.begin tnp) (TokenAndPosition.end_ tnp)
              else [])
           tnps.

(** An issue that stands on an occurrence of a URL in the text. *)
Definition onOccurrence (text : string) (info : PackageJsonInfo) (d : Diagnostic) : Prop :=
  exists src,
    src <> ""%string /\
    0 <= range_begin d /\
    range_end d = range_begin d + len src /\
    String.prefix src (drop (Z.to_nat (range_begin d)) text) = true /\
    In d (validate (range_begin d) (range_end d) src MARKDOWN info).

End MapperDefinitions.


(** ** The published range and the errors of [Uri.parse] *)

(** An offset brought into the text. *)
Definition clamp (text : string) (offset : Z) : Z :=
  Z.max 0 (Z.min offset (len text)).

(** Modelled from the spec: [document.positionAt] and the constructor of
    [Range] are not part of the source, they are "the host's
    text-position/offset conversion primitives".  [positionAt] answers the
    position of the offset brought into the text, and a [Range] puts the
    smaller of its two positions first.  This is the range
    [new Range(document.positionAt(begin), document.positionAt(end))] of
    lines 250, 255, 260 and 265, as the offsets of its two ends. *)
Definition rangeOf (text : string) (begin end_ : Z) : Z * Z :=
  let start := clamp text begin in
  let stop := clamp text end_ in
  if stop <? start then (stop, start) else (start, stop).

(** The diagnostic as it is published for a document of the given text. *)
Definition published (text : string) (d : Diagnostic) : Diagnostic :=
  mkDiagnostic (fst (rangeOf text (range_begin d) (range_end d)))
               (snd (rangeOf text (range_begin d) (range_end d)))
               (message d) (severity d).

Section UriErrors.

Context `{Host}.

(** [Uri.parse(src)] returns. *)
Definition parses (src : string) : bool := negb (Uri_throws src).

(** The call of [Uri.parse] of line 220, if it is reached, returns. *)
Definition repositoryParses (tree : option JsonNode.t) : bool :=
  match tree with
  | Some _ =>
      match findNodeAtLocation tree ["repository"; "url"] with
      | Some repo =>
          if String.eqb (JsonNode.type repo) "string" && truthy (JsonNode.value repo)
          then parses (JsonNode.value repo)
          else true
      | None => true
      end
  | None => true
  end.

(** Every call of [Uri.parse] of the scan of a manifest returns: the one of
    line 220 and, for an extension, the one of line 246 for each reported
    node. *)
Definition manifestParses (tree : option JsonNode.t) : bool :=
  repositoryParses tree
  && (if isExtension (computeInfo tree)
      then forallb (fun r => parses (JsonNode.value (snd r))) (reportedNodes tree)
      else true).

(** The call of [addDiagnostics] of line 189, if it is made: the offset of
    the occurrence and the URL. *)
Definition imageCall (text : string) (inp : TokenAndPosition) : option (Z * string) :=
  let src := default "" (Token.attrGet (TokenAndPosition.token inp) "src") in
  let begin_ := indexOf text src (TokenAndPosition.begin inp) in
  if negb (begin_ =? -1) && (begin_ <? TokenAndPosition.end_ inp)
  then Some (begin_, src)
  else None.

(** The call of [addDiagnostics] of line 202, if it is made. *)
Definition tagCall (text : string) (tnp : TokenAndPosition) (tag : StartTag)
    : option (Z * string) :=
  if String.eqb (name tag) "img" then
    match List.find (fun a => String.eqb (fst a) "src") (tag_attrs tag) with
    | Some src =>
        if truthy (snd src) then
          let begin_ := indexOf text (snd src) (TokenAndPosition.begin tnp + startOffset tag) in
          if negb (begin_ =? -1) && (begin_ <? TokenAndPosition.end_ tnp)
          then Some (begin_, snd src)
          else None
        else None
    | None => None
    end
  else None.

(** The calls of [addDiagnostics] of a prose scan, in their order. *)
Definition proseCalls (text : string) : list (Z * string) :=
  let tokensAndPositions :=
    toTokensAndPositions text (markdownIt_parse text) 0 (len text) in
  omap (imageCall text) (List.filter isImage tokensAndPositions)
  ++ flat_map (fun tnp =>
                 omap (tagCall text tnp)
                      (startTags (Token.content (TokenAndPosition.token tnp))))
              (List.filter isText tokensAndPositions).

(** The issues of one call. *)
Definition callIssues (info : PackageJsonInfo) (c : Z * string) : list Diagnostic :=
  validate (fst c) (fst c + len (snd c)) (snd c) MARKDOWN info.

(** Every call of [Uri.parse] of the scan of a prose text returns. *)
Definition proseParses (text : string) : bool :=
  forallb (fun c => parses (snd c)) (proseCalls text).

(** How a callback ends: it returns, or a call of [Uri.parse] throws a
    [URIError] and the callback is left at once.  [st] is the state of the
    linter at that moment; the error itself goes to [console.error], line
    85. *)
Inductive Outcome :=
| returned (st : ExtensionLinter)
| thrown (st : ExtensionLinter).

Definition state (o : Outcome) : ExtensionLinter :=
  match o with
  | returned st => st
  | thrown st => st
  end.

(** [readPackageJsonInfo] with the error of line 220: the error leaves the
    function before anything is queued or stored. *)
Definition readPackageJsonInfoE (ws : Workspace) (folder : Uri)
    (tree : option JsonNode.t) (st : ExtensionLinter)
    : option (PackageJsonInfo * ExtensionLinter) :=
  if repositoryParses tree then Some (readPackageJsonInfo ws folder tree st) else None.

(** The callback of [packageJsonQ.forEach] with the errors of lines 220 and
    246: an error of line 246 comes after [readPackageJsonInfo] has
    returned and before the issues are published. *)
Definition lintPackageJsonDocumentE (ws : Workspace) (st : ExtensionLinter)
    (document : TextDocument) : Outcome :=
  let st := with_packageJsonQ (set_delete document) st in
  if isClosed ws document then returned st
  else
    let tree := parseTree (getText ws document) in
    match readPackageJsonInfoE ws (getUriFolder (uri document)) tree st with
    | None => thrown st
    | Some (info, st) =>
        if (if isExtension info
            then forallb (fun r => parses (JsonNode.value (snd r))) (reportedNodes tree)
            else true)
        then returned (with_diagnostics
                         (insert (uri document) (manifestDiagnostics tree info)) st)
        else thrown st
    end.

(** [forEach] with a callback that may throw: the error ends the loop. *)
Fixpoint forEachE (callback : ExtensionLinter -> TextDocument -> Outcome)
    (documents : list TextDocument) (st : ExtensionLinter) : Outcome :=
  match documents with
  | [] => returned st
  | document :: rest =>
      match callback st document with
      | returned st => forEachE callback rest st
      | thrown st => thrown st
      end
  end.

Definition lintPackageJsonE (ws : Workspace) (st : ExtensionLinter) : Outcome :=
  forEachE (lintPackageJsonDocumentE ws) (packageJsonQ st) st.

(** The loop of [lintReadme] with the errors of line 220 (through line 135)
    and of line 246 (through lines 189 and 202). *)
Fixpoint lintReadmeLoopE (ws : Workspace) (documents : list TextDocument)
    (st : ExtensionLinter) : Outcome :=
  match documents with
  | [] => returned st
  | document :: rest =>
      let st := with_readmeQ (set_delete document) st in
      if isClosed ws document then returned st
      else
        let folder := getUriFolder (uri document) in
        match
          match folderToPackageJsonInfo st !! Uri_toString folder with
          | Some info => Some (info, st)
          | None => readPackageJsonInfoE ws folder (loadPackageJson ws folder) st
          end
        with
        | None => thrown st
        | Some (info, st) =>
            if negb (isExtension info)
            then returned (with_diagnostics (insert (uri document) []) st)
            else
              let text := getText ws document in
              if proseParses text
              then lintReadmeLoopE ws rest
                     (with_diagnostics
                        (insert (uri document) (proseDiagnostics text info)) st)
              else thrown st
        end
  end.

Definition lintReadmeE (ws : Workspace) (st : ExtensionLinter) : Outcome :=
  lintReadmeLoopE ws (readmeQ st) st.

(** [lint]: an error of [lintPackageJson] rejects the promise, and
    [lintReadme] is not called. *)
Definition lintE (ws : Workspace) (st : ExtensionLinter) : Outcome :=
  match lintPackageJsonE ws st with
  | returned st => lintReadmeE ws st
  | thrown st => thrown st
  end.

Definition fireE (ws : Workspace) (st : ExtensionLinter) : Outcome :=
  lintE ws (mkLinter (diagnosticsCollection st) (folderToPackageJsonInfo st)
                     (packageJsonQ st) (readmeQ st) false).

Definition stepE (ws : Workspace) (st : ExtensionLinter) (e : Event) : Outcome :=
  match e with
  | onDidOpenTextDocument document => returned (queue document st)
  | onDidChangeTextDocument document => returned (queue document st)
  | onDidCloseTextDocument document => returned (clear document st)
  | timeout => if timer st then fireE ws st else returned st
  end.

(** The states of a linter in whose run no call of [Uri.parse] threw. *)
Inductive reachableParsing : ExtensionLinter -> Prop :=
| reachableParsing_constructor ws : reachableParsing (constructor ws)
| reachableParsing_step ws st e st' :
    reachableParsing st ->
    stepE ws st e = returned st' ->
    reachableParsing st'.

(** The states of a linter, errors included: after an error the linter goes
    on from the state it was left in. *)
Inductive reachableE : ExtensionLinter -> Prop :=
| reachableE_constructor ws : reachableE (constructor ws)
| reachableE_step ws st e : reachableE st -> reachableE (state (stepE ws st e)).

End UriErrors.

(** A manifest whose icon has a percent sign that no two hexadecimal digits
    follow, and the manifests of two folders in one workspace. *)
Definition manifest3 : string :=
  String.concat ""
    ["{"; quoted "engines"; ":{"; quoted "vscode"; ":"; quoted "^1.0.0"; "},";
     quoted "icon"; ":"; quoted "http://x.com/100%.png"; "}"].

Definition packageJsonA : TextDocument := mkDocument 11 (file "/a/package.json") "json".
Definition packageJsonB : TextDocument := mkDocument 12 (file "/b/package.json") "json".

Definition workspace10 : Workspace :=
  mkWorkspace [packageJsonA; packageJsonB] (fun _ => false)
    (fun d => if decide (d = packageJsonA) then manifest3 else manifest1)
    (fun _ => None).

(** The README of a folder whose manifest, not open in the editor, is
    [manifest2]. *)
Definition workspace9 : Workspace :=
  mkWorkspace [readme] (fun _ => false) texts
    (fun u => if decide (u = file "/ext/package.json") then Some manifest2 else None).


(** * Theorems *)

(** ** Strings *)

Section StringFacts.

Local Open Scope string_scope.

Lemma len_nonneg s : 0 <= len s.
Proof. unfold len. lia. Qed.

Lemma len_String c s : len (String c s) = len s + 1.
Proof. unfold len. cbn [String.length]. lia. Qed.

Lemma append_nil b : "" ++ b = b.
Proof. reflexivity. Qed.

Lemma append_String c a b : String c a ++ b = String c (a ++ b).
Proof. reflexivity. Qed.

Lemma append_nil_r a : a ++ "" = a.
Proof. induction a as [|c a IH]; [done|]. by rewrite append_String, IH. Qed.

Lemma len_app a b : len (a ++ b) = len a + len b.
Proof.
  induction a as [|c a IH].
  - rewrite append_nil. unfold len. cbn. lia.
  - rewrite append_String, !len_String, IH. lia.
Qed.

Lemma len_zero s : len s = 0 -> s = "".
Proof. destruct s; [done|]. rewrite len_String. pose proof (len_nonneg s). lia. Qed.

Lemma prefix_app a b : String.prefix a b = true <-> exists c, b = a ++ c.
Proof.
  revert b. induction a as [|x a IH]; intros b.
  - split; [intros _; by exists b|]. intros _. by destruct b.
  - destruct b as [|y b]; cbn [String.prefix].
    + split; [done|]. intros [c Hc]. discriminate.
    + destruct (ascii_dec x y) as [->|Hne].
      * rewrite IH. split; intros [c Hc]; exists c; rewrite append_String in *; congruence.
      * split; [done|]. intros [c Hc]. rewrite append_String in Hc. congruence.
Qed.

Lemma drop_app a b : drop (String.length a) (a ++ b) = b.
Proof. induction a; [done|]. by rewrite append_String. Qed.

(** A string is the characters before position [k] followed by
    [drop k]. *)
Lemma drop_split (k : nat) s :
  (k <= String.length s)%nat ->
  exists a, s = a ++ drop k s /\ String.length a = k.
Proof.
  revert s. induction k as [|k IH]; intros s Hk.
  - exists "". done.
  - destruct s as [|c s]; cbn in Hk; [lia|].
    destruct (IH s) as (a & Ha & Hl); [lia|].
    exists (String c a). rewrite append_String. cbn. split; [by f_equal|by f_equal].
Qed.

Lemma len_drop (k : nat) s :
  (k <= String.length s)%nat -> len (drop k s) = len s - Z.of_nat k.
Proof.
  intros Hk. destruct (drop_split k s Hk) as (a & Ha & Hl).
  rewrite Ha at 2. rewrite len_app. unfold len at 2. lia.
Qed.

(** What [find_at] returns: [-1], or a position [r >= k] at which [sub]
    starts, no earlier position from [k] on being one. *)
Lemma find_at_spec sub s k r :
  0 <= k -> find_at sub s k = r ->
  r = -1 \/
  (k <= r /\ r + len sub <= k + len s /\
   String.prefix sub (drop (Z.to_nat (r - k)) s) = true).
Proof.
  revert k. induction s as [|c s IH]; intros k Hk; cbn [find_at].
  - destruct (String.prefix sub "") eqn:Hp; intros <-; [|by left].
    right. replace (Z.to_nat (k - k)) with 0%nat by lia. cbn [drop].
    split; [lia|]. split; [|done].
    apply prefix_app in Hp as [c Hc]. destruct sub; [|done].
    unfold len. cbn. lia.
  - destruct (String.prefix sub (String c s)) eqn:Hp.
    + intros <-. right. replace (Z.to_nat (k - k)) with 0%nat by lia. cbn [drop].
      split; [lia|]. split; [|done].
      apply prefix_app in Hp as [t Ht]. rewrite Ht, len_app.
      pose proof (len_nonneg t). lia.
    + intros Hr. destruct (IH (k + 1) ltac:(lia) Hr) as [?|(H1 & H2 & H3)]; [by left|].
      right. rewrite len_String. split; [lia|]. split; [lia|].
      replace (Z.to_nat (r - k)) with (S (Z.to_nat (r - (k + 1)))) by lia.
      done.
Qed.

(** [find_at] answers [k] exactly when [sub] starts at the first
    position. *)
Lemma find_at_here sub s k :
  0 <= k -> (find_at sub s k = k <-> String.prefix sub s = true).
Proof.
  intros Hk. destruct s as [|c s]; cbn [find_at].
  - destruct (String.prefix sub ""); split; intros; try done; lia.
  - destruct (String.prefix sub (String c s)) eqn:Hp; [done|].
    split; [|done]. intros Hr.
    destruct (find_at_spec sub s (k + 1) k ltac:(lia) Hr) as [?|(? & _)]; lia.
Qed.

(** [find_at] answers [-1] exactly when [sub] starts at no position of
    [s]. *)
Lemma find_at_none sub s k :
  0 <= k ->
  (find_at sub s k = -1 <->
   forall j, (j <= String.length s)%nat -> String.prefix sub (drop j s) = false).
Proof.
  revert k. induction s as [|c s IH]; intros k Hk; cbn [find_at].
  - destruct (String.prefix sub "") eqn:Hp.
    + split; [lia|]. intros Hj. specialize (Hj 0%nat ltac:(cbn; lia)). cbn [drop] in Hj.
      congruence.
    + split; [|done]. intros _ j Hj. by destruct j.
  - destruct (String.prefix sub (String c s)) eqn:Hp.
    + split; [lia|]. intros Hj. specialize (Hj 0%nat ltac:(cbn; lia)). cbn [drop] in Hj.
      congruence.
    + rewrite IH by lia. split.
      * intros Hs [|j] Hj; [done|]. cbn [drop]. apply Hs. cbn in Hj. lia.
      * intros Hs j Hj. apply (Hs (S j)). cbn. lia.
Qed.

Lemma drop_drop a b s : drop a (drop b s) = drop (a + b) s.
Proof.
  revert s. induction b as [|b IH]; intros s.
  - by rewrite Nat.add_0_r.
  - rewrite Nat.add_succ_r. destruct s; cbn [drop]; [by destruct a|]. apply IH.
Qed.

(** [indexOf] answers [-1] exactly when [sub] does not occur at or after the
    clamped starting position. *)
Lemma indexOf_none s sub pos :
  indexOf s sub pos = -1 <->
  forall j, Z.min (Z.max pos 0) (len s) <= Z.of_nat j <= len s ->
            String.prefix sub (drop j s) = false.
Proof.
  unfold indexOf. set (start := Z.min (Z.max pos 0) (len s)).
  pose proof (len_nonneg s) as Hl.
  assert (0 <= start <= len s) as Hs by (unfold start; lia).
  rewrite find_at_none by lia.
  assert (String.length (drop (Z.to_nat start) s)
          = (String.length s - Z.to_nat start)%nat) as Hld.
  { pose proof (len_drop (Z.to_nat start) s ltac:(unfold len in *; lia)) as Hd.
    unfold len in *. lia. }
  split.
  - intros Hn j Hj.
    replace j with ((j - Z.to_nat start) + Z.to_nat start)%nat by lia.
    rewrite <- drop_drop. apply Hn. unfold len in *. lia.
  - intros Hn j Hj. rewrite drop_drop. apply Hn. unfold len in *. lia.
Qed.

(** The result of [indexOf]: [-1], or the position of an occurrence that
    lies within the string, at or after the clamped starting position. *)
Lemma indexOf_spec s sub pos :
  indexOf s sub pos = -1 \/
  (Z.min (Z.max pos 0) (len s) <= indexOf s sub pos /\
   indexOf s sub pos + len sub <= len s).
Proof.
  unfold indexOf.
  set (start := Z.min (Z.max pos 0) (len s)).
  pose proof (len_nonneg s) as Hl.
  assert (0 <= start <= len s) as Hs by (unfold start; lia).
  destruct (find_at_spec sub (drop (Z.to_nat start) s) start _ ltac:(lia) eq_refl)
    as [->|(H1 & H2 & _)]; [by left|].
  right. rewrite len_drop in H2 by (unfold len in *; lia). lia.
Qed.

Lemma indexOf_found s sub pos :
  indexOf s sub pos <> -1 ->
  0 <= indexOf s sub pos /\ indexOf s sub pos + len sub <= len s.
Proof.
  pose proof (len_nonneg s).
  destruct (indexOf_spec s sub pos) as [?|(? & ?)]; [done|lia].
Qed.

(** [endsWith] decides whether [needle] is a suffix of [haystack]. *)
Lemma endsWith_spec haystack needle :
  endsWith haystack needle = true <-> exists stem, haystack = stem ++ needle.
Proof.
  unfold endsWith.
  pose proof (len_nonneg haystack) as Hh. pose proof (len_nonneg needle) as Hn.
  destruct (Z.ltb_spec 0 (len haystack - len needle)) as [Hd|Hd].
  - rewrite Z.eqb_eq. unfold indexOf.
    replace (Z.min (Z.max (len haystack - len needle) 0) (len haystack))
      with (len haystack - len needle) by lia.
    rewrite find_at_here by lia. rewrite prefix_app.
    set (k := Z.to_nat (len haystack - len needle)).
    assert (k <= String.length haystack)%nat as Hk by (unfold k, len in *; lia).
    destruct (drop_split k haystack Hk) as (a & Ha & Hla).
    pose proof (len_drop k haystack Hk) as Hld.
    split.
    + intros [c Hc]. exists a. rewrite Ha at 1. f_equal.
      rewrite Hc in Hld. rewrite len_app in Hld.
      assert (len c = 0) as ->%len_zero by (unfold k in Hld; lia).
      by rewrite Hc, append_nil_r.
    + intros [stem Hstem]. exists "".
      assert (String.length stem = k) as <-.
      { unfold k. rewrite Hstem, len_app. unfold len. lia. }
      by rewrite Hstem, drop_app, append_nil_r.
  - destruct (Z.eqb_spec (len haystack - len needle) 0) as [He|He].
    + rewrite String.eqb_eq. split; [intros ->; by exists ""|].
      intros [stem ->]. rewrite len_app in He.
      assert (len stem = 0) as ->%len_zero by lia. done.
    + split; [done|]. intros [stem ->]. rewrite len_app in *.
      pose proof (len_nonneg stem). lia.
Qed.

(** The primitives on the strings of the examples. *)
Example indexOf_examples :
  indexOf "abcabc" "bc" 2 = 4 /\ indexOf "abcabc" "bc" (-3) = 1 /\
  indexOf "abc" "d" 0 = -1 /\ indexOf "abc" "" 7 = 3 /\ indexOf "abc" "c" 3 = -1.
Proof. repeat split. Qed.

Example endsWith_examples :
  endsWith "/ext/package.json" "/package.json" = true /\
  endsWith "/package.json" "/package.json" = true /\
  endsWith "package.json" "/package.json" = false /\
  endsWith (toLowerCase "/ext/ReadMe.MD") "/readme.md" = true.
Proof. repeat split. Qed.

End StringFacts.

(** ** The URL validator *)

Section ValidatorFacts.

Context `{Host}.

(** The four tests of [addDiagnostics], one after the other. *)
Lemma validate_unfold begin end_ src context info :
  validate begin end_ src context info =
  let uri := Uri_parse src in
  let scheme := toLowerCase (scheme uri) in
  (if truthy scheme && negb (String.eqb scheme "https") && negb (String.eqb scheme "data")
   then [mkDiagnostic begin end_ httpsRequired Warning] else [])
  ++ (if String.eqb scheme "data"
      then [mkDiagnostic begin end_ dataUrlsNotValid Warning] else [])
  ++ (if negb (truthy scheme) && negb (hasHttpsRepository info)
      then [mkDiagnostic begin end_ relativeUrlRequiresHttpsRepository Warning] else [])
  ++ (if endsWith (toLowerCase (path uri)) ".svg" && notAllowed (toLowerCase (authority uri))
      then [mkDiagnostic begin end_ svgsNotValid Warning] else []).
Proof.
  unfold validate, addDiagnostics. cbv zeta.
  repeat match goal with |- context [if ?c then _ else _] => destruct c end;
    reflexivity.
Qed.

(** [addDiagnostics] appends the issues of the URL to the array. *)
Lemma addDiagnostics_app diagnostics begin end_ src context info :
  addDiagnostics diagnostics begin end_ src context info =
  diagnostics ++ validate begin end_ src context info.
Proof.
  unfold validate, addDiagnostics. cbv zeta.
  repeat match goal with |- context [if ?c then _ else _] => destruct c end;
    cbn [app]; rewrite <- ?app_assoc; cbn [app]; rewrite ?app_nil_r; reflexivity.
Qed.

(** Every issue of a URL carries the range that was passed. *)
Lemma validate_range begin end_ src context info d :
  In d (validate begin end_ src context info) ->
  range_begin d = begin /\ range_end d = end_.
Proof.
  rewrite validate_unfold. cbv zeta. rewrite !in_app_iff.
  repeat match goal with |- context [if ?c then _ else _] => destruct c end;
    cbn [In]; intros Hd; repeat destruct Hd as [Hd|Hd]; subst; try done.
Qed.

(** Membership in the lowercased list is membership, up to the case of the
    letters, in the list of product.json. *)
Lemma notAllowed_false a :
  notAllowed a = false <->
  exists provider, In provider extensionAllowedBadgeProviders /\ toLowerCase provider = a.
Proof.
  unfold notAllowed, allowedBadgeProviders. rewrite negb_false_iff, existsb_exists.
  split.
  - intros (x & Hx & ->%String.eqb_eq). apply in_map_iff in Hx as (p & <- & Hp). eauto.
  - intros (p & Hp & <-). exists (toLowerCase p). split; [by apply in_map|].
    apply String.eqb_refl.
Qed.

End ValidatorFacts.








(** ** The manifest scanner *)

Section ManifestFacts.

Context `{Host}.

Lemma fold_addNode context info nodes diagnostics :
  fold_left (addNode context info) nodes diagnostics =
  diagnostics ++ flat_map (fun node => nodeIssues info (context, node)) nodes.
Proof.
  revert diagnostics. induction nodes as [|node nodes IH]; intros diagnostics; cbn.
  - by rewrite app_nil_r.
  - rewrite IH. unfold addNode, nodeIssues. rewrite addDiagnostics_app, <- app_assoc.
    reflexivity.
Qed.

(** The scan of a manifest is the validation of its reported nodes, in
    order. *)
Lemma manifestDiagnostics_reported tree info :
  manifestDiagnostics tree info =
  if isExtension info then flat_map (nodeIssues info) (reportedNodes tree) else [].
Proof.
  unfold manifestDiagnostics, reportedNodes. destruct (isExtension info); [|done].
  rewrite flat_map_app.
  assert (forall (icon : JsonNode.t),
            addNode ICON info [] icon = nodeIssues info (ICON, icon)) as Hicon.
  { intros icon. unfold addNode. by rewrite addDiagnostics_app. }
  assert (forall nodes,
            flat_map (nodeIssues info) (List.map (fun url => (BADGE, url)) nodes)
            = flat_map (fun node => nodeIssues info (BADGE, node)) nodes) as Hb.
  { intros nodes. induction nodes; cbn; [done|by f_equal]. }
  destruct (findNodeAtLocation tree ["icon"]) as [icon|];
    [destruct (String.eqb (JsonNode.type icon) "string")|];
    (destruct (findNodeAtLocation tree ["badges"]) as [badges|];
     [destruct (String.eqb (JsonNode.type badges) "array")|]);
    rewrite ?fold_addNode, ?Hicon, ?Hb; cbn [flat_map app];
    rewrite ?app_nil_r; reflexivity.
Qed.

(** A reported node is the string node of the [icon] field or of the [url]
    field of an element of the [badges] array. *)
Lemma reportedNodes_spec tree context node :
  In (context, node) (reportedNodes tree) ->
  JsonNode.type node = "string"%string /\
  ((context = ICON /\ findNodeAtLocation tree ["icon"] = Some node) \/
   (context = BADGE /\
    exists badges child,
      findNodeAtLocation tree ["badges"] = Some badges /\
      JsonNode.type badges = "array"%string /\
      In child (JsonNode.children badges) /\
      findNodeAtLocation (Some child) ["url"] = Some node)).
Proof.
  unfold reportedNodes. rewrite in_app_iff. intros [Hi|Hb].
  - destruct (findNodeAtLocation tree ["icon"]) as [icon|]; [|done].
    destruct (String.eqb_spec (JsonNode.type icon) "string") as [Ht|]; [|done].
    destruct Hi as [[= <- <-]|[]]. auto.
  - destruct (findNodeAtLocation tree ["badges"]) as [badges|]; [|done].
    destruct (String.eqb_spec (JsonNode.type badges) "array") as [Ht|]; [|done].
    apply in_map_iff in Hb as (url & [= <- <-] & Hurl).
    unfold badgeUrls in Hurl. apply list_elem_of_In, list_elem_of_omap in Hurl.
    destruct Hurl as (o & Ho & Hid). cbn in Hid. subst o.
    apply list_elem_of_In, filter_In in Ho as [Ho Hs].
    apply in_map_iff in Ho as (child & Hc & Hchild).
    cbn in Hs. apply String.eqb_eq in Hs. split; [done|]. right. split; [done|].
    exists badges, child. auto.
Qed.

End ManifestFacts.

(** The offsets a manifest scan hands to [document.positionAt]: every issue
    belongs to a reported string node, and its two offsets are the offset
    of the node plus one and the offset plus the length minus one. *)
Lemma manifest_issue_offsets `{Host} tree info d :
  In d (manifestDiagnostics tree info) ->
  exists context node,
    In (context, node) (reportedNodes tree) /\
    JsonNode.type node = "string"%string /\
    In d (nodeIssues info (context, node)) /\
    range_begin d = JsonNode.offset node + 1 /\
    range_end d = JsonNode.offset node + JsonNode.length node - 1.
Proof.
  intros Hd. rewrite manifestDiagnostics_reported in Hd.
  destruct (isExtension info); [|done].
  apply in_flat_map in Hd as ([context node] & Hr & Hd).
  exists context, node.
  destruct (reportedNodes_spec _ _ _ Hr) as [Ht _].
  destruct (validate_range _ _ _ _ _ _ Hd) as [Hb He]. cbn [fst snd] in Hb, He.
  repeat split; done.
Qed.

(** A range of the text is published as it is. *)
Lemma rangeOf_within text begin end_ :
  0 <= begin -> begin <= end_ -> end_ <= len text ->
  rangeOf text begin end_ = (begin, end_).
Proof.
  intros H0 H1 H2. unfold rangeOf, clamp. cbv zeta.
  destruct (Z.ltb_spec (Z.max 0 (Z.min end_ (len text)))
              (Z.max 0 (Z.min begin (len text)))); [lia|].
  f_equal; lia.
Qed.

Lemma published_within_id text d : within text d -> published text d = d.
Proof.
  intros (H0 & H1 & H2). unfold published. rewrite rangeOf_within by done.
  by destruct d.
Qed.

(** Whatever the two offsets are, the published range lies within the
    text. *)
Lemma published_within text d : within text (published text d).
Proof.
  unfold within, published, rangeOf, clamp. cbv zeta. pose proof (len_nonneg text).
  destruct (Z.ltb_spec (Z.max 0 (Z.min (range_end d) (len text)))
              (Z.max 0 (Z.min (range_begin d) (len text)))); cbn; lia.
Qed.

(** For a string node that lies in the text with both its quotation marks,
    the published range is what stands between them: it starts after the
    first position of the node and ends before the last. *)
Lemma quoted_node_range `{Host} text tree info d :
  In d (manifestDiagnostics tree info) ->
  exists context node,
    In (context, node) (reportedNodes tree) /\
    (0 <= JsonNode.offset node -> 2 <= JsonNode.length node ->
     JsonNode.offset node + JsonNode.length node <= len text ->
     range_begin (published text d) = JsonNode.offset node + 1 /\
     range_end (published text d) = JsonNode.offset node + JsonNode.length node - 1 /\
     ~ (range_begin (published text d) <= JsonNode.offset node
        < range_end (published text d)) /\
     ~ (range_begin (published text d)
        <= JsonNode.offset node + JsonNode.length node - 1
        < range_end (published text d))).
Proof.
  intros Hd. destruct (manifest_issue_offsets tree info d Hd)
    as (context & node & Hr & _ & _ & Hb & He).
  exists context, node. split; [done|]. intros H0 H2 Hl.
  rewrite published_within_id by (unfold within; lia). lia.
Qed.

(** C1 (the source does otherwise).  In [manifest2] the value of [icon] is
    a string literal without closing quotation mark; its node is the opening
    quotation mark alone, at offset 38.  The scan hands the offsets 39 and
    38 to [document.positionAt], and the range that is published for the
    issue is [38, 39): it starts at the offset of the node, not one after
    it, and covers the quotation mark.  For [manifest1], where the literal
    has both quotation marks, the one issue that is published is
    InsecureScheme ([httpsRequired]) on [39, 57), the substring
    [http://x.com/a.png] between the quotation marks at 38 and 57. *)
Theorem unterminated_icon_covers_its_quote :
  @findNodeAtLocation plainHost (@parseTree plainHost manifest2) ["icon"]
  = Some (JsonNode.mk "string" 38 1 "" []) /\
  diagnosticsCollection (@fire plainHost workspace2 (constructor workspace2))
    !! uri packageJson
  = Some [mkDiagnostic 39 38 relativeUrlRequiresHttpsRepository Warning] /\
  published manifest2 (mkDiagnostic 39 38 relativeUrlRequiresHttpsRepository Warning)
  = mkDiagnostic 38 39 relativeUrlRequiresHttpsRepository Warning /\
  String.get 38 manifest2 = Some "034"%char /\
  List.map (published manifest1)
    <$> diagnosticsCollection (@fire plainHost workspace1 (constructor workspace1))
          !! uri packageJson
  = Some [mkDiagnostic 39 57 httpsRequired Warning] /\
  String.substring 39 (57 - 39) manifest1 = "http://x.com/a.png"%string /\
  String.get 38 manifest1 = Some "034"%char /\
  String.get 57 manifest1 = Some "034"%char.
Proof. repeat split; vm_compute; reflexivity. Qed.

(** ** Ranges and the text *)

Section RangeFacts.

Context `{Host}.

Lemma addDiagnostics_Forall (P : Diagnostic -> Prop) diagnostics begin end_ src context info :
  (forall d, range_begin d = begin -> range_end d = end_ -> P d) ->
  Forall P diagnostics ->
  Forall P (addDiagnostics diagnostics begin end_ src context info).
Proof.
  intros HP Hds. rewrite addDiagnostics_app. apply Forall_app. split; [done|].
  apply List.Forall_forall. intros d [Hb He]%validate_range. by apply HP.
Qed.

Lemma fold_left_Forall {A} (P : Diagnostic -> Prop)
    (f : list Diagnostic -> A -> list Diagnostic) (l : list A) diagnostics :
  (forall ds a, Forall P ds -> Forall P (f ds a)) ->
  Forall P diagnostics -> Forall P (fold_left f l diagnostics).
Proof.
  intros Hf. revert diagnostics.
  induction l as [|a l IH]; intros diagnostics Hds; cbn; [done|]. apply IH, Hf, Hds.
Qed.

(** An occurrence found by [indexOf] is a range of the text. *)
Lemma occurrence_within text src pos d :
  indexOf text src pos <> -1 ->
  range_begin d = indexOf text src pos ->
  range_end d = indexOf text src pos + len src ->
  within text d.
Proof.
  intros Hfound Hb He. destruct (indexOf_found _ _ _ Hfound) as [H0 H1].
  pose proof (len_nonneg src). unfold within. lia.
Qed.

Lemma addImage_within text info diagnostics inp :
  Forall (within text) diagnostics ->
  Forall (within text) (addImage text info diagnostics inp).
Proof.
  intros Hds. unfold addImage. cbv zeta.
  destruct (Z.eqb_spec (indexOf text (default ""%string
              (Token.attrGet (TokenAndPosition.token inp) "src"))
              (TokenAndPosition.begin inp)) (-1)) as [|Hfound]; [done|].
  cbn [negb andb]. destruct (_ <? _); [|done].
  apply addDiagnostics_Forall; [|done]. intros d. by apply occurrence_within.
Qed.

Lemma onStartTag_within text info tnp diagnostics tag :
  Forall (within text) diagnostics ->
  Forall (within text) (onStartTag text info tnp diagnostics tag).
Proof.
  intros Hds. unfold onStartTag.
  destruct (String.eqb (name tag) "img"); [|done].
  destruct (List.find _ _) as [src|]; [|done].
  destruct (truthy (snd src)); [|done]. cbv zeta.
  destruct (Z.eqb_spec (indexOf text (snd src)
              (TokenAndPosition.begin tnp + startOffset tag)) (-1)) as [|Hfound]; [done|].
  cbn [negb andb]. destruct (_ <? _); [|done].
  apply addDiagnostics_Forall; [|done]. intros d. by apply occurrence_within.
Qed.

(** Every issue of a prose scan lies within the text. *)
Lemma proseDiagnostics_within text info :
  Forall (within text) (proseDiagnostics text info).
Proof.
  unfold proseDiagnostics. cbv zeta.
  apply fold_left_Forall.
  { intros ds tnp Hds. unfold addText. apply fold_left_Forall; [|done].
    intros. by apply onStartTag_within. }
  apply fold_left_Forall; [|constructor].
  intros. by apply addImage_within.
Qed.

End RangeFacts.

(** C5.  Every issue that a scan publishes, of a manifest or of prose, has
    a range with [0 <= start <= end <= length of the text].  The range of
    an issue of a prose scan is the occurrence the scan found, as it is.
    The range of an issue of a manifest scan is built from the offsets
    [offset + 1] and [offset + length - 1] of its string node, and is this
    pair of offsets when the node lies in the text with both its quotation
    marks. *)
Theorem published_ranges_within_text :
  (forall (H : Host) text info d,
     In d (proseDiagnostics text info) ->
     within text (published text d) /\ published text d = d) /\
  (forall (H : Host) text info d,
     In d (manifestDiagnostics (parseTree text) info) ->
     within text (published text d) /\
     exists context node,
       In (context, node) (reportedNodes (parseTree text)) /\
       range_begin d = JsonNode.offset node + 1 /\
       range_end d = JsonNode.offset node + JsonNode.length node - 1 /\
       (0 <= JsonNode.offset node -> 2 <= JsonNode.length node ->
        JsonNode.offset node + JsonNode.length node <= len text ->
        published text d = d)).
Proof.
  split.
  - intros H text info d Hd.
    pose proof (proj1 (List.Forall_forall _ _) (proseDiagnostics_within text info) d Hd)
      as Hw.
    rewrite (published_within_id text d Hw). done.
  - intros H text info d Hd. split; [apply published_within|].
    destruct (manifest_issue_offsets (parseTree text) info d Hd)
      as (context & node & Hr & _ & _ & Hb & He).
    exists context, node. repeat split; try done.
    intros H0 H2 Hl. apply published_within_id. unfold within. lia.
Qed.

Lemma published_ranges_within_text_witness :
  within readme1 (published readme1 (mkDiagnostic 8 29 httpsRequired Warning)) /\
  within readme2 (published readme2 (mkDiagnostic 10 35 dataUrlsNotValid Warning)) /\
  within manifest1 (published manifest1 (mkDiagnostic 39 57 httpsRequired Warning)) /\
  within manifest2
    (published manifest2 (mkDiagnostic 39 38 relativeUrlRequiresHttpsRepository Warning)).
Proof.
  split; [|split; [|split]].
  - apply (proj1 published_ranges_within_text proseHost readme1 noRepository).
    vm_compute. left. reflexivity.
  - apply (proj1 published_ranges_within_text proseHost readme2 noRepository).
    vm_compute. left. reflexivity.
  - apply (proj2 published_ranges_within_text plainHost manifest1 noRepository).
    vm_compute. left. reflexivity.
  - apply (proj2 published_ranges_within_text plainHost manifest2 noRepository).
    vm_compute. left. reflexivity.
Defined.

(** ** The position mapper *)

Section MapperFacts.

Context `{Host}.

Lemma position_token text end_ begin token :
  TokenAndPosition.token (fst (position text end_ begin token)) = token.
Proof.
  unfold position. destruct (Token.map token) as [[line0 line1]|]; [done|].
  cbv zeta. repeat match goal with |- context [if ?c then _ else _] => destruct c end;
    reflexivity.
Qed.

Lemma mapTokens_tokens text end_ begin tokens :
  List.map TokenAndPosition.token (mapTokens text end_ begin tokens) = tokens.
Proof.
  revert begin. induction tokens as [|token tokens IH]; intros begin; cbn; [done|].
  pose proof (position_token text end_ begin token) as Ht.
  destruct (position text end_ begin token) as [tnp begin']. cbn in *.
  by rewrite Ht, IH.
Qed.

Lemma mapTokens_app text end_ begin before after :
  mapTokens text end_ begin (before ++ after) =
  mapTokens text end_ begin before
  ++ mapTokens text end_ (cursorAfter text end_ begin before) after.
Proof.
  revert begin. induction before as [|token before IH]; intros begin; cbn; [done|].
  destruct (position text end_ begin token) as [tnp begin']. cbn. by rewrite IH.
Qed.

(** [toTokensAndPositions] reads the children of its argument only. *)
Lemma descend_children text parent begin end_ :
  descend text parent begin end_ =
  toTokensAndPositions text (Token.children parent) begin end_.
Proof. by destruct parent. Qed.

(** The equation of lines 176-179: the positions of the level, then the
    results of the recursive calls on the positioned tokens that have
    children, each within its own bounds. *)
Lemma toTokensAndPositions_eq text tokens begin end_ :
  toTokensAndPositions text tokens begin end_ =
  let tokensAndPositions := mapTokens text end_ begin tokens in
  tokensAndPositions ++
  flat_map (fun tnp =>
              toTokensAndPositions text (Token.children (TokenAndPosition.token tnp))
                (TokenAndPosition.begin tnp) (TokenAndPosition.end_ tnp))
           (List.filter hasChildren tokensAndPositions).
Proof.
  unfold toTokensAndPositions at 1. cbn [descend rootOf Token.children]. cbv zeta.
  f_equal.
  pose proof (mapTokens_tokens text end_ begin tokens) as Ht.
  revert Ht. generalize (mapTokens text end_ begin tokens) as tnps.
  induction tokens as [|child tokens IH]; intros tnps Ht.
  - by destruct tnps.
  - destruct tnps as [|tnp tnps]; [done|]. injection Ht as Hc Ht.
    cbn [List.filter]. destruct (hasChildren tnp); cbn [flat_map app].
    + f_equal; [|by apply IH]. by rewrite <- Hc, descend_children.
    + by apply IH.
Qed.

(** What the source computes differs from the words of the specification
    for one kind of token only: an image whose [src] is the empty string. *)
Lemma contentOf_derivedContent token :
  Token.attrGet token "src" <> Some ""%string \/ Token.type token <> "image"%string ->
  contentOf token = derivedContent token.
Proof.
  unfold contentOf, derivedContent. intros Hsrc.
  destruct (String.eqb_spec (Token.type token) "image") as [Hi|Hi]; [|done].
  cbn [andb]. destruct (Token.attrGet token "src") as [src|]; [|done].
  cbn [truthy_opt default]. unfold truthy.
  destruct (String.eqb_spec src "") as [->|]; [|done]. by destruct Hsrc.
Qed.

(** The unresolved case of the callback, lines 170-174. *)
Lemma position_unresolved text end_ begin token :
  Token.map token = None ->
  contentOf token = ""%string
  \/ indexOf text (contentOf token) begin = -1
  \/ end_ < indexOf text (contentOf token) begin + len (contentOf token) ->
  position text end_ begin token = (mkTnp token begin begin, begin).
Proof.
  intros Hmap Hc. unfold position. rewrite Hmap. cbv zeta.
  destruct (truthy (contentOf token)) eqn:Ht; [|done].
  destruct (Z.eqb_spec (indexOf text (contentOf token) begin) (-1)) as [|Hf]; [done|].
  cbn [negb]. destruct (Z.leb_spec (indexOf text (contentOf token) begin
                                     + len (contentOf token)) end_) as [Hle|]; [|done].
  destruct Hc as [Hc|[Hc|Hc]]; [|done|lia].
  rewrite Hc in Ht. done.
Qed.

End MapperFacts.

(** C6, as amended.  The derived content of a token is the [src] attribute
    of an image when it is present and not empty, otherwise the content
    string.  A token without a line range whose derived content is empty,
    does not occur at or after the cursor, or occurs only where its end
    exceeds the inherited bound, gets the span [cursor, cursor) and leaves
    the cursor where it is: the tokens after it are placed from the same
    cursor.  In the words of the specification ([derivedContent]) this
    holds for every token but an image whose [src] is the empty string. *)
Theorem unresolved_token_span `{Host} text end_ begin before token after :
  let cursor := cursorAfter text end_ begin before in
  Token.map token = None ->
  contentOf token = ""%string
  \/ indexOf text (contentOf token) cursor = -1
  \/ end_ < indexOf text (contentOf token) cursor + len (contentOf token) ->
  position text end_ cursor token = (mkTnp token cursor cursor, cursor) /\
  mapTokens text end_ begin (before ++ token :: after) =
    mapTokens text end_ begin before
    ++ mkTnp token cursor cursor :: mapTokens text end_ cursor after /\
  cursorAfter text end_ begin (before ++ [token]) = cursor /\
  (Token.attrGet token "src" <> Some ""%string \/ Token.type token <> "image"%string ->
   contentOf token = derivedContent token).
Proof.
  intros cursor Hmap Hc.
  pose proof (position_unresolved text end_ cursor token Hmap Hc) as Hp.
  split; [done|]. split; [|split].
  - rewrite mapTokens_app. cbn [mapTokens]. fold cursor. by rewrite Hp.
  - clear Hc. subst cursor. revert begin Hp.
    induction before as [|t before IH]; intros begin Hp; cbn in *.
    + by rewrite Hp.
    + by apply IH.
  - apply contentOf_derivedContent.
Qed.

Lemma unresolved_token_span_witness :
  @mapTokens proseHost readme1 30 0 (paragraph readme1 [])
  = [mkTnp (Token.mk "paragraph_open" (Some (0, 1)) [] "" []) 0 30;
     mkTnp (Token.mk "inline" (Some (0, 1)) [] readme1 []) 0 30;
     mkTnp (Token.mk "paragraph_close" None [] "" []) 30 30].
Proof.
  exact (proj1 (proj2
    (@unresolved_token_span proseHost readme1 30 0
       [Token.mk "paragraph_open" (Some (0, 1)) [] "" [];
        Token.mk "inline" (Some (0, 1)) [] readme1 []]
       (Token.mk "paragraph_close" None [] "" []) []
       eq_refl (or_introl eq_refl)))).
Defined.

(** C6 as it is written fails for an image whose [src] is empty, as in
    [![alt]()]: the token has no line range and its [src] is present and
    empty, but the source falls back to the content [alt], finds it at 2 and
    moves the cursor to 5. *)
Lemma empty_src_image_is_resolved :
  Token.map (image "" "alt") = None /\
  Token.attrGet (image "" "alt") "src" = Some ""%string /\
  derivedContent (image "" "alt") = ""%string /\
  @position proseHost emptyImage 8 0 (image "" "alt") = (mkTnp (image "" "alt") 2 5, 5) /\
  @position proseHost emptyImage 8 0 (image "" "alt") <> (mkTnp (image "" "alt") 0 0, 0) /\
  In (mkTnp (image "" "alt") 2 5)
     (@toTokensAndPositions proseHost emptyImage (@markdownIt_parse proseHost emptyImage)
        0 (len emptyImage)).
Proof.
  repeat split; try reflexivity.
  - vm_compute. discriminate.
  - vm_compute. do 3 right. left. reflexivity.
Qed.

(** ** The orchestrator *)

Section OrchestratorFacts.

Context `{Host}.

Lemma set_delete_In document d q :
  In d (set_delete document q) <-> In d q /\ d <> document.
Proof.
  unfold set_delete. rewrite filter_In, bool_decide_eq_true. tauto.
Qed.

Lemma set_add_In document d q :
  In d (set_add document q) <-> In d q \/ d = document.
Proof.
  unfold set_add. destruct (decide (document ∈ q)) as [Hin|Hin].
  - apply list_elem_of_In in Hin. split; [tauto|]. intros [?| ->]; done.
  - rewrite in_app_iff. cbn. intuition.
Qed.

(** A closed document ends the loop of [lintReadme]: what follows it in the
    array stays in the queue, unread. *)
Lemma lintReadmeLoop_closed ws document rest st :
  isClosed ws document = true ->
  lintReadmeLoop ws (document :: rest) st = with_readmeQ (set_delete document) st.
Proof. intros Hc. cbn [lintReadmeLoop]. by rewrite Hc. Qed.

(** A closed document does not end [lintPackageJson]: the callback returns
    and [forEach] goes on. *)
Lemma lintPackageJson_closed ws document rest st :
  isClosed ws document = true ->
  fold_left (lintPackageJsonDocument ws) (document :: rest) st =
  fold_left (lintPackageJsonDocument ws) rest (with_packageJsonQ (set_delete document) st).
Proof. intros Hc. cbn [fold_left]. unfold lintPackageJsonDocument at 2. by rewrite Hc. Qed.

Lemma readPackageJsonInfo_info ws folder tree st :
  fst (readPackageJsonInfo ws folder tree st) = computeInfo tree.
Proof. reflexivity. Qed.

Lemma readPackageJsonInfo_diagnostics ws folder tree st :
  diagnosticsCollection (snd (readPackageJsonInfo ws folder tree st))
  = diagnosticsCollection st.
Proof.
  unfold readPackageJsonInfo. cbv zeta. cbn [snd with_info diagnosticsCollection].
  destruct (folderToPackageJsonInfo st !! Uri_toString folder) as [oldInfo|]; [|done].
  destruct (_ || _); [|done].
  generalize (List.filter
    (fun document => String.eqb
       (toLowerCase (Uri_toString (getUriFolder (uri document))))
       (toLowerCase (Uri_toString folder))) (textDocuments ws)).
  intros l. revert st. induction l as [|d l IH]; intros st; cbn [fold_left]; [done|].
  rewrite IH. unfold queueReadme. by destruct (isReadme d).
Qed.

End OrchestratorFacts.

(** C7, as amended.  When the loop of the prose scan reaches an open
    document for whose folder no info is cached, and the manifest of the
    folder is missing, gives no syntax tree, or has a tree without a
    string-typed [engines.vscode] node and with a repository URL, if any,
    that [Uri.parse] accepts, the scan publishes the empty issue list for
    the document; so it does when the cached info says that the folder is
    not an extension.  In each of these cases the loop returns: no call of
    [Uri.parse] throws. *)
Theorem non_extension_folder_publishes_nothing `{Host} ws document rest st :
  let folder := getUriFolder (uri document) in
  isClosed ws document = false ->
  (exists info, folderToPackageJsonInfo st !! Uri_toString folder = Some info /\
                isExtension info = false)
  \/ (folderToPackageJsonInfo st !! Uri_toString folder = None /\
      (openTextDocument ws (manifestUri folder) = None
       \/ (exists text, openTextDocument ws (manifestUri folder) = Some text /\
                        parseTree text = None)
       \/ (exists text, openTextDocument ws (manifestUri folder) = Some text /\
                        isStringNode (findNodeAtLocation (parseTree text)
                                        ["engines"; "vscode"]) = false /\
                        repositoryParses (parseTree text) = true))) ->
  lintReadmeLoopE ws (document :: rest) st
  = returned (lintReadmeLoop ws (document :: rest) st) /\
  diagnosticsCollection (lintReadmeLoop ws (document :: rest) st) !! uri document
  = Some [].
Proof.
  intros folder Hopen Hcase.
  cbn [lintReadmeLoopE lintReadmeLoop]. cbv zeta. rewrite Hopen. fold folder.
  cbn [with_readmeQ folderToPackageJsonInfo].
  destruct Hcase as [(info & Hc & Hext)|[Hc Hm]]; rewrite Hc.
  - rewrite Hext. cbn [negb with_diagnostics diagnosticsCollection].
    split; [done|]. apply lookup_insert_eq.
  - assert (isExtension (computeInfo (loadPackageJson ws folder)) = false
            /\ repositoryParses (loadPackageJson ws folder) = true) as [Hext Hrepo].
    { unfold loadPackageJson.
      destruct Hm as [Hm|[(text & Hm & Hp)|(text & Hm & Hs & Hrepo)]]; rewrite Hm;
        [done|by rewrite Hp|].
      split; [|done].
      unfold computeInfo. cbn [isExtension]. unfold isStringNode in Hs.
      destruct (parseTree text); [|done]. done. }
    unfold readPackageJsonInfoE. rewrite Hrepo.
    destruct (readPackageJsonInfo ws folder (loadPackageJson ws folder) _)
      as [info st'] eqn:Hr.
    assert (info = computeInfo (loadPackageJson ws folder)) as ->.
    { by rewrite <- (readPackageJsonInfo_info ws folder _
                       (with_readmeQ (set_delete document) st)), Hr. }
    rewrite Hext. cbn [negb with_diagnostics diagnosticsCollection].
    split; [done|]. apply lookup_insert_eq.
Qed.

Lemma non_extension_folder_publishes_nothing_witness :
  diagnosticsCollection
    (@lintReadmeLoop proseHost workspace4 [readme; changelog] (constructor workspace4))
    !! uri readme = Some [].
Proof.
  apply (@non_extension_folder_publishes_nothing proseHost workspace4 readme [changelog]
           (constructor workspace4)).
  - reflexivity.
  - right. split; [reflexivity|]. left. reflexivity.
Defined.

(** A manifest with a syntax error may still give a tree: the parser is
    tolerant.  With [manifest2] as the manifest of the folder, whose
    [icon] has no closing quotation mark, the README is scanned as the
    README of an extension. *)
Lemma malformed_manifest_is_still_an_extension :
  diagnosticsCollection
    (@step proseHost workspace9 (constructor workspace9) timeout) !! uri readme
  = Some [mkDiagnostic 8 29 httpsRequired Warning].
Proof. vm_compute. reflexivity. Qed.

(** C7 as it is written fails when an info of the folder is cached: in
    [run2] the manifest of [/ext] is missing, the README was cleared and
    opened again, and the scan publishes an issue for it, because [run1]
    had cached that [/ext] is an extension. *)
Lemma cached_info_outlives_manifest :
  @reachable proseHost run2 /\
  openTextDocument workspace4 (@manifestUri proseHost (@getUriFolder proseHost (uri readme)))
  = None /\
  isClosed workspace4 readme = false /\
  diagnosticsCollection
    (@step proseHost workspace4 run1 (onDidCloseTextDocument readme)) !! uri readme
  = None /\
  diagnosticsCollection run2 !! uri readme
  = Some [mkDiagnostic 8 29 httpsRequired Warning] /\
  diagnosticsCollection run2 !! uri readme <> Some [].
Proof.
  split; [|repeat split; try (vm_compute; reflexivity)].
  - unfold run2, run1. repeat apply reachable_step. apply reachable_constructor.
  - vm_compute. discriminate.
Qed.

(** C8 (the source does otherwise).  In [closedReadme] the prose queue holds
    the closed README followed by the open changelog.  When the timeout
    expires the loop of [lintReadme] takes the README out of the queue and
    returns: the changelog stays in the queue and nothing is published for
    it.  With the README out of the queue the same timeout scans the
    changelog. *)
Theorem closed_readme_stops_the_drain :
  @reachable proseHost closedReadme /\
  readmeQ closedReadme = [readme; changelog] /\
  timer closedReadme = true /\
  isClosed workspace5 readme = true /\
  isClosed workspace5 changelog = false /\
  readmeQ run3 = [changelog] /\
  diagnosticsCollection run3 !! uri changelog = None /\
  diagnosticsCollection
    (@fire proseHost workspace5 (with_readmeQ (set_delete readme) closedReadme))
    !! uri changelog
  = Some [mkDiagnostic 8 29 httpsRequired Warning].
Proof.
  split.
  - unfold closedReadme. apply reachable_step, reachable_constructor.
  - repeat split; vm_compute; reflexivity.
Qed.

(** The second [return] of the loop, line 139, stops the drain in the same
    way: after the README of a folder that is not an extension, the
    changelog of the extension stays in the queue, unread. *)
Lemma non_extension_readme_stops_the_drain :
  readmeQ (constructor workspace6) = [otherReadme; changelog] /\
  readmeQ run4 = [changelog] /\
  diagnosticsCollection run4 !! uri otherReadme = Some [] /\
  diagnosticsCollection run4 !! uri changelog = None.
Proof. repeat split; vm_compute; reflexivity. Qed.

(** C9 (the source does otherwise).  [clear] deletes the published issues
    of the document and takes it out of the manifest queue; the prose queue
    is left as it is.  The README closed in [closedReadme] is still in the
    prose queue. *)
Theorem clear_keeps_the_prose_queue :
  (forall document st,
     readmeQ (clear document st) = readmeQ st /\
     ~ In document (packageJsonQ (clear document st)) /\
     diagnosticsCollection (clear document st) !! uri document = None) /\
  closedReadme = clear readme (constructor workspace3) /\
  In readme (readmeQ (constructor workspace3)) /\
  In readme (readmeQ closedReadme).
Proof.
  split.
  - intros document st. split; [reflexivity|]. split.
    + change (packageJsonQ (clear document st))
        with (set_delete document (packageJsonQ st)).
      rewrite set_delete_In. tauto.
    + apply lookup_delete_eq.
  - repeat split; vm_compute; auto.
Qed.

(** ** Which documents are read *)

Section QueueFacts.

Context `{Host}.

Lemma set_add_Forall (P : TextDocument -> Prop) document q :
  P document -> Forall P q -> Forall P (set_add document q).
Proof.
  intros Hd Hq. unfold set_add. destruct (decide (document ∈ q)); [done|].
  apply Forall_app. split; [done|]. by constructor.
Qed.

Lemma set_delete_Forall (P : TextDocument -> Prop) document q :
  Forall P q -> Forall P (set_delete document q).
Proof.
  intros Hq. apply List.Forall_forall. intros d [Hd _]%set_delete_In.
  by apply (proj1 (List.Forall_forall _ _) Hq).
Qed.

Lemma queueReadme_invariant document st :
  invariant st -> invariant (queueReadme document st).
Proof.
  intros (Hp & Hr & Hd). unfold queueReadme.
  destruct (isReadme document) eqn:Hdoc; [|done].
  split; [done|]. split; [|done]. cbn. by apply set_add_Forall.
Qed.

Lemma queue_invariant document st :
  invariant st -> invariant (queue document st).
Proof.
  intros (Hp & Hr & Hd). unfold queue. apply queueReadme_invariant.
  destruct (isPackageJson document) eqn:Hdoc; [|done].
  split; [|done]. cbn. by apply set_add_Forall.
Qed.

Lemma clear_invariant document st :
  invariant st -> invariant (clear document st).
Proof.
  intros (Hp & Hr & Hd). split; [|split]; cbn.
  - by apply set_delete_Forall.
  - done.
  - intros u ds Hu. apply lookup_delete_Some in Hu as [_ Hu]. eauto.
Qed.

Lemma fold_queueReadme_invariant l st :
  invariant st -> invariant (fold_left (fun st document => queueReadme document st) l st).
Proof.
  revert st. induction l as [|d l IH]; intros st Hst; cbn; [done|].
  by apply IH, queueReadme_invariant.
Qed.

Lemma readPackageJsonInfo_invariant ws folder tree st :
  invariant st -> invariant (snd (readPackageJsonInfo ws folder tree st)).
Proof.
  intros Hst. unfold readPackageJsonInfo. cbv zeta. cbn [snd].
  match goal with |- invariant (with_info _ ?s) =>
    assert (invariant s) as (Hp & Hr & Hd) end.
  { destruct (folderToPackageJsonInfo st !! Uri_toString folder); [|done].
    destruct (_ || _); [|done]. by apply fold_queueReadme_invariant. }
  done.
Qed.

Lemma publish_invariant document diagnostics st :
  linted document = true ->
  invariant st ->
  invariant (with_diagnostics (insert (uri document) diagnostics) st).
Proof.
  intros Hl (Hp & Hr & Hd). split; [done|]. split; [done|]. cbn.
  intros u ds Hu. apply lookup_insert_Some in Hu as [[<- _]|[_ Hu]]; eauto.
Qed.

Lemma lintPackageJsonDocument_invariant ws st document :
  isPackageJson document = true ->
  invariant st -> invariant (lintPackageJsonDocument ws st document).
Proof.
  intros Hdoc (Hp & Hr & Hd). unfold lintPackageJsonDocument. cbv zeta.
  assert (invariant (with_packageJsonQ (set_delete document) st)) as Hst.
  { split; [|done]. cbn. by apply set_delete_Forall. }
  destruct (isClosed ws document); [done|].
  pose proof (readPackageJsonInfo_invariant ws (getUriFolder (uri document))
                (parseTree (getText ws document)) _ Hst) as Hread.
  destruct (readPackageJsonInfo _ _ _ _) as [info st']. cbn [snd] in Hread.
  apply publish_invariant; [|done]. unfold linted. by rewrite Hdoc.
Qed.

Lemma lintPackageJson_invariant ws st :
  invariant st -> invariant (lintPackageJson ws st).
Proof.
  intros Hst. unfold lintPackageJson.
  assert (Forall (fun d => isPackageJson d = true) (packageJsonQ st)) as Hq
    by apply Hst.
  revert Hq Hst. generalize (packageJsonQ st) as documents.
  intros documents. revert st.
  induction documents as [|d documents IH]; intros st Hq Hst; cbn; [done|].
  inversion Hq; subst. apply IH; [done|]. by apply lintPackageJsonDocument_invariant.
Qed.

Lemma lintReadmeLoop_invariant ws documents st :
  Forall (fun d => isReadme d = true) documents ->
  invariant st -> invariant (lintReadmeLoop ws documents st).
Proof.
  revert st. induction documents as [|d documents IH]; intros st Hq Hst; [done|].
  inversion Hq as [|? ? Hdoc Hq']; subst. cbn [lintReadmeLoop].
  assert (invariant (with_readmeQ (set_delete d) st)) as Hst'.
  { destruct Hst as (Hp & Hr & Hd). split; [done|]. split; [|done].
    cbn. by apply set_delete_Forall. }
  destruct (isClosed ws d); [done|].
  assert (linted d = true) as Hl by (unfold linted; rewrite Hdoc; apply orb_true_r).
  match goal with |- invariant (let '(_, _) := ?x in _) =>
    assert (invariant (snd x)) as Hx; [|destruct x as [info st'']] end.
  { cbn [with_readmeQ folderToPackageJsonInfo].
    destruct (folderToPackageJsonInfo st !! _); [done|].
    by apply readPackageJsonInfo_invariant. }
  cbn [snd] in Hx. destruct (negb (isExtension info)).
  - by apply publish_invariant.
  - apply IH; [done|]. by apply publish_invariant.
Qed.

Lemma fire_invariant ws st : invariant st -> invariant (fire ws st).
Proof.
  intros (Hp & Hr & Hd). unfold fire, lint, lintReadme.
  match goal with |- context [lintPackageJson ws ?s] =>
    assert (invariant (lintPackageJson ws s)) as Hst end.
  { by apply lintPackageJson_invariant. }
  apply lintReadmeLoop_invariant; [apply Hst|done].
Qed.

Lemma step_invariant ws st e : invariant st -> invariant (step ws st e).
Proof.
  intros Hst. destruct e; cbn [step].
  - by apply queue_invariant.
  - by apply queue_invariant.
  - by apply clear_invariant.
  - destruct (timer st); [by apply fire_invariant|done].
Qed.

Lemma constructor_invariant ws : invariant (constructor ws).
Proof.
  unfold constructor.
  assert (invariant empty_linter) as Hst.
  { split; [constructor|]. split; [constructor|]. intros u ds Hu. cbn in Hu.
    by rewrite lookup_empty in Hu. }
  revert Hst. generalize empty_linter as st.
  induction (textDocuments ws) as [|d l IH]; intros st Hst; cbn; [done|].
  by apply IH, queue_invariant.
Qed.

Lemma reachable_invariant st : reachable st -> invariant st.
Proof.
  induction 1 as [ws|ws st e _ IH].
  - apply constructor_invariant.
  - by apply step_invariant.
Qed.

Lemma isPackageJson_spec document :
  isPackageJson document = true <->
  languageId document = "json"%string /\
  exists stem, path (uri document) = (stem ++ "/package.json")%string.
Proof.
  unfold isPackageJson. by rewrite andb_true_iff, String.eqb_eq, endsWith_spec.
Qed.

Lemma isReadme_spec document :
  isReadme document = true <->
  languageId document = "markdown"%string /\
  ((exists stem, toLowerCase (path (uri document)) = (stem ++ "/readme.md")%string) \/
   (exists stem, toLowerCase (path (uri document)) = (stem ++ "/changelog.md")%string)).
Proof.
  unfold isReadme.
  by rewrite andb_true_iff, orb_true_iff, String.eqb_eq, !endsWith_spec.
Qed.

End QueueFacts.

(** C10.  An open or a change event adds the document to the manifest queue
    only if its language is [json] and its path ends in [/package.json],
    and to the prose queue only if its language is [markdown] and its
    lowercased path ends in [/readme.md] or [/changelog.md]; the other
    members of the queues are the same before and after.  For every other
    document the event leaves the linter, its two queues included, as it
    is.  In every state a linter reaches, the queues hold such documents
    only and issues are published for the URIs of such documents only. *)
Theorem only_linted_documents_are_queued :
  (forall (H : Host) ws st document e d,
     e = onDidOpenTextDocument document \/ e = onDidChangeTextDocument document ->
     (In d (packageJsonQ (step ws st e)) <->
      In d (packageJsonQ st) \/
      (d = document /\ languageId document = "json"%string /\
       exists stem, path (uri document) = (stem ++ "/package.json")%string)) /\
     (In d (readmeQ (step ws st e)) <->
      In d (readmeQ st) \/
      (d = document /\ languageId document = "markdown"%string /\
       ((exists stem,
           toLowerCase (path (uri document)) = (stem ++ "/readme.md")%string) \/
        (exists stem,
           toLowerCase (path (uri document)) = (stem ++ "/changelog.md")%string)))) /\
     (linted document = false -> step ws st e = st)) /\
  (forall document,
     linted document = true <->
     (languageId document = "json"%string /\
      exists stem, path (uri document) = (stem ++ "/package.json")%string) \/
     (languageId document = "markdown"%string /\
      ((exists stem,
          toLowerCase (path (uri document)) = (stem ++ "/readme.md")%string) \/
       (exists stem,
          toLowerCase (path (uri document)) = (stem ++ "/changelog.md")%string)))) /\
  (forall (H : Host) st,
     reachable st ->
     (forall d, In d (packageJsonQ st) -> linted d = true) /\
     (forall d, In d (readmeQ st) -> linted d = true) /\
     (forall u ds, diagnosticsCollection st !! u = Some ds ->
                   exists d, uri d = u /\ linted d = true)).
Proof.
  split; [|split].
  - intros H ws st document e d He.
    assert (step ws st e = queue document st) as -> by (by destruct He as [-> | ->]).
    rewrite <- isPackageJson_spec, <- isReadme_spec.
    unfold linted, queue, queueReadme.
    destruct (isPackageJson document), (isReadme document); cbn;
      rewrite ?set_add_In; intuition congruence.
  - intros document. unfold linted.
    rewrite orb_true_iff, isPackageJson_spec, isReadme_spec. tauto.
  - intros H st (Hp & Hr & Hd)%reachable_invariant.
    split; [|split]; [| |done].
    + intros d Hin. unfold linted.
      by rewrite (proj1 (List.Forall_forall _ _) Hp d Hin).
    + intros d Hin. unfold linted.
      rewrite (proj1 (List.Forall_forall _ _) Hr d Hin). apply orb_true_r.
Qed.

Lemma only_linted_documents_are_queued_witness :
  (forall u ds, diagnosticsCollection run2 !! u = Some ds ->
                exists d, uri d = u /\ linted d = true) /\
  @step proseHost workspace3 run1 (onDidOpenTextDocument notes) = run1.
Proof.
  split.
  - apply (proj2 (proj2 only_linted_documents_are_queued) proseHost run2).
    unfold run2, run1. repeat apply reachable_step. apply reachable_constructor.
  - apply (proj1 only_linted_documents_are_queued proseHost workspace3 run1 notes
             (onDidOpenTextDocument notes) notes).
    + left. reflexivity.
    + reflexivity.
Defined.

(** * Further properties of the code *)

(** ** [endsWith] and the validator *)

(** X1.  [endsWith] tells whether the needle is a suffix of the haystack,
    through its three branches: a string ends with itself and with the
    empty string, every string with the needle appended ends with it, and
    a needle one character longer than the haystack is never found. *)
Theorem endsWith_suffix haystack needle c :
  (endsWith haystack needle = true <->
   exists stem, haystack = (stem ++ needle)%string) /\
  endsWith haystack haystack = true /\
  endsWith haystack "" = true /\
  endsWith (haystack ++ needle) needle = true /\
  endsWith needle (String c needle) = false.
Proof.
  split; [apply endsWith_spec|].
  split; [apply endsWith_spec; by exists ""%string|].
  split; [apply endsWith_spec; exists haystack; by rewrite append_nil_r|].
  split; [apply endsWith_spec; by exists haystack|].
  destruct (endsWith needle (String c needle)) eqn:He; [|done].
  apply endsWith_spec in He as [stem Hs].
  apply (f_equal len) in Hs. rewrite len_app, len_String in Hs.
  pose proof (len_nonneg stem). lia.
Qed.

Section ValidatorProperties.

Context `{Host}.

Lemma truthy_false s : truthy s = false <-> s = ""%string.
Proof. unfold truthy. rewrite negb_false_iff. apply String.eqb_eq. Qed.

(** The kinds of the issues of one URL, by the lowercased scheme. *)
Lemma validate_kinds begin end_ src context info :
  kinds (validate begin end_ src context info) =
  let scheme := toLowerCase (scheme (Uri_parse src)) in
  (if String.eqb scheme "data" then [dataUrlsNotValid]
   else if String.eqb scheme "https" then []
   else if String.eqb scheme "" then
     if hasHttpsRepository info then [] else [relativeUrlRequiresHttpsRepository]
   else [httpsRequired])
  ++ (if endsWith (toLowerCase (path (Uri_parse src))) ".svg"
         && notAllowed (toLowerCase (authority (Uri_parse src)))
      then [svgsNotValid] else []).
Proof.
  rewrite validate_unfold. cbv zeta. unfold kinds, truthy.
  generalize (toLowerCase (scheme (Uri_parse src))) as s. intros s.
  destruct (String.eqb_spec s "data") as [->|Hd];
    [by destruct (_ && notAllowed _)|].
  destruct (String.eqb_spec s "https") as [->|Hh];
    [by destruct (_ && notAllowed _)|].
  destruct (String.eqb_spec s "") as [->|He];
    destruct (hasHttpsRepository info), (_ && notAllowed _); reflexivity.
Qed.

End ValidatorProperties.

(** X2.  One URL gets at most two issues: at most one of InsecureScheme,
    DataUrlForbidden and RelativeRequiresSecureRepo, which exclude each
    other, followed by at most one SvgDisallowed.  Every issue is a warning
    on the range that was passed, earlier diagnostics are kept in front, and
    the usage of the image (icon, badge or prose) changes nothing. *)
Theorem validate_shape `{Host} diagnostics begin end_ src context context' info :
  In (kinds (validate begin end_ src context info)) possibleKinds /\
  (List.length (validate begin end_ src context info) <= 2)%nat /\
  Forall (fun d => range_begin d = begin /\ range_end d = end_ /\ severity d = Warning)
         (validate begin end_ src context info) /\
  addDiagnostics diagnostics begin end_ src context info =
    diagnostics ++ validate begin end_ src context info /\
  validate begin end_ src context' info = validate begin end_ src context info.
Proof.
  assert (In (kinds (validate begin end_ src context info)) possibleKinds) as Hk.
  { rewrite validate_kinds. cbv zeta. unfold possibleKinds.
    repeat match goal with |- context [if ?c then _ else _] => destruct c end;
      cbn; tauto. }
  split; [done|]. split; [|split; [|split]].
  - assert (List.length (kinds (validate begin end_ src context info)) <= 2)%nat as Hl.
    { unfold possibleKinds in Hk. cbn [In] in Hk.
      repeat destruct Hk as [Hk|Hk]; try (rewrite <- Hk; cbn; lia). done. }
    unfold kinds in Hl. by rewrite length_map in Hl.
  - rewrite validate_unfold. cbv zeta.
    repeat match goal with |- context [if ?c then _ else _] => destruct c end;
      cbn [app]; repeat constructor.
  - apply addDiagnostics_app.
  - reflexivity.
Qed.


(** ** The manifest scan and the cache of the folders *)

Section ManifestProperties.

Context `{Host}.

Lemma validate_length begin end_ src context info :
  (List.length (validate begin end_ src context info) <= 2)%nat.
Proof.
  rewrite <- (length_map message). fold (kinds (validate begin end_ src context info)).
  rewrite validate_kinds. cbv zeta.
  repeat match goal with |- context [if ?c then _ else _] => destruct c end; cbn; lia.
Qed.

Lemma flat_map_length_le {A B} (f : A -> list B) (n : nat) (l : list A) :
  (forall a, (List.length (f a) <= n)%nat) ->
  (List.length (flat_map f l) <= n * List.length l)%nat.
Proof.
  intros Hf. induction l as [|a l IH]; cbn; [lia|].
  rewrite length_app. specialize (Hf a). lia.
Qed.

(** What [queueReadme] changes. *)
Lemma queueReadme_fields document st :
  diagnosticsCollection (queueReadme document st) = diagnosticsCollection st /\
  folderToPackageJsonInfo (queueReadme document st) = folderToPackageJsonInfo st /\
  packageJsonQ (queueReadme document st) = packageJsonQ st /\
  (forall d, In d (readmeQ (queueReadme document st)) <->
             In d (readmeQ st) \/ (d = document /\ isReadme document = true)) /\
  timer (queueReadme document st) = timer st || isReadme document.
Proof.
  unfold queueReadme. destruct (isReadme document); cbn.
  - split; [done|]. split; [done|]. split; [done|]. split; [|by rewrite orb_true_r].
    intros d. rewrite set_add_In. tauto.
  - split; [done|]. split; [done|]. split; [done|]. split; [|by rewrite orb_false_r].
    intros d. intuition discriminate.
Qed.

(** What a fold of [queueReadme] changes: it adds the prose documents of
    the list to the prose queue and starts the timer if there is one. *)
Lemma fold_queueReadme_fields l st :
  let st' := fold_left (fun st document => queueReadme document st) l st in
  diagnosticsCollection st' = diagnosticsCollection st /\
  folderToPackageJsonInfo st' = folderToPackageJsonInfo st /\
  packageJsonQ st' = packageJsonQ st /\
  (forall d, In d (readmeQ st') <-> In d (readmeQ st) \/ (In d l /\ isReadme d = true)) /\
  timer st' = timer st || existsb isReadme l.
Proof.
  revert st. induction l as [|a l IH]; intros st; cbn [fold_left existsb].
  - cbn. rewrite orb_false_r. repeat split; tauto.
  - destruct (IH (queueReadme a st)) as (Hd & Hc & Hp & Hr & Ht). cbv zeta in *.
    destruct (queueReadme_fields a st) as (Hd' & Hc' & Hp' & Hr' & Ht').
    rewrite Hd, Hc, Hp, Ht, Hd', Hc', Hp', Ht', orb_assoc.
    split; [done|]. split; [done|]. split; [done|]. split; [|done].
    intros d. rewrite Hr, Hr'. cbn [In].
    split; [intros [[?|[-> ?]]|[? ?]]; auto|intros [?|[[<-|?] ?]]; auto].
Qed.

(** The fields of the state after [readPackageJsonInfo]. *)
Lemma readPackageJsonInfo_fields ws folder tree st :
  let st' := snd (readPackageJsonInfo ws folder tree st) in
  let requeue :=
    match folderToPackageJsonInfo st !! Uri_toString folder with
    | Some oldInfo => bool_decide (oldInfo <> computeInfo tree)
    | None => false
    end in
  diagnosticsCollection st' = diagnosticsCollection st /\
  folderToPackageJsonInfo st' =
    <[Uri_toString folder := computeInfo tree]> (folderToPackageJsonInfo st) /\
  packageJsonQ st' = packageJsonQ st /\
  (forall d, In d (readmeQ st') <->
             In d (readmeQ st) \/
             (requeue = true /\ In d (inFolder ws folder) /\ isReadme d = true)) /\
  timer st' = timer st || (requeue && existsb isReadme (inFolder ws folder)).
Proof.
  unfold readPackageJsonInfo. cbv zeta. cbn [snd].
  destruct (folderToPackageJsonInfo st !! Uri_toString folder) as [oldInfo|] eqn:Hold.
  - assert ((negb (Bool.eqb (isExtension oldInfo) (isExtension (computeInfo tree)))
             || negb (Bool.eqb (hasHttpsRepository oldInfo)
                               (hasHttpsRepository (computeInfo tree))))
            = bool_decide (oldInfo <> computeInfo tree)) as ->.
    { destruct oldInfo as [[] []], (computeInfo tree) as [[] []]; reflexivity. }
    destruct (bool_decide (oldInfo <> computeInfo tree)).
    + fold (inFolder ws folder).
      destruct (fold_queueReadme_fields (inFolder ws folder) st)
        as (Hd & Hc & Hp & Hr & Ht). cbv zeta in *. cbn.
      rewrite Hd, Hc, Hp, Ht. repeat split; try done.
      * intros Hin. apply Hr in Hin. tauto.
      * intros Hin. apply Hr. tauto.
    + cbn. rewrite orb_false_r. repeat split; try tauto. intros [?|[? _]]; done.
  - cbn. rewrite orb_false_r. repeat split; try tauto. intros [?|[? _]]; done.
Qed.

(** The fields of the state after the callback of [lintPackageJson]. *)
Lemma lintPackageJsonDocument_fields ws st document :
  let st' := lintPackageJsonDocument ws st document in
  let tree := parseTree (getText ws document) in
  packageJsonQ st' = set_delete document (packageJsonQ st) /\
  (isClosed ws document = true ->
   diagnosticsCollection st' = diagnosticsCollection st /\
   folderToPackageJsonInfo st' = folderToPackageJsonInfo st /\
   readmeQ st' = readmeQ st) /\
  (isClosed ws document = false ->
   diagnosticsCollection st' =
     <[uri document := manifestDiagnostics tree (computeInfo tree)]>
       (diagnosticsCollection st) /\
   folderToPackageJsonInfo st' =
     <[Uri_toString (getUriFolder (uri document)) := computeInfo tree]>
       (folderToPackageJsonInfo st)) /\
  (forall d, In d (readmeQ st') -> In d (readmeQ st) \/ In d (textDocuments ws)).
Proof.
  unfold lintPackageJsonDocument. cbv zeta.
  destruct (isClosed ws document) eqn:Hc.
  - cbn. repeat split; try done. auto.
  - pose proof (readPackageJsonInfo_fields ws (getUriFolder (uri document))
                  (parseTree (getText ws document))
                  (with_packageJsonQ (set_delete document) st)) as Hf.
    pose proof (readPackageJsonInfo_info ws (getUriFolder (uri document))
                  (parseTree (getText ws document))
                  (with_packageJsonQ (set_delete document) st)) as Hi.
    destruct (readPackageJsonInfo _ _ _ _) as [info st']. cbn [fst snd] in Hf, Hi.
    cbv zeta in Hf. destruct Hf as (Hd & Hca & Hp & Hr & _). subst info. cbn in *.
    rewrite Hd, Hca, Hp. repeat split; try done.
    intros d [?|(_ & Hin & _)]%Hr; [by left|right].
    unfold inFolder in Hin. by apply filter_In in Hin as [? _].
Qed.

End ManifestProperties.

(** X4.  The issues of a manifest come in the order of the reported nodes,
    the icon first and then the badges in the order of the array, at most
    two for each node; a manifest that is not an extension gets none,
    whatever its icon and its badges are. *)
Theorem manifest_issue_order `{Host} tree info :
  manifestDiagnostics tree info =
    (if isExtension info then flat_map (nodeIssues info) (reportedNodes tree) else []) /\
  (List.length (manifestDiagnostics tree info) <= 2 * List.length (reportedNodes tree))%nat /\
  manifestDiagnostics tree (mkInfo false (hasHttpsRepository info)) = [].
Proof.
  rewrite !manifestDiagnostics_reported. split; [done|]. split; [|done].
  destruct (isExtension info); [|cbn; lia].
  apply flat_map_length_le. intros [context node]. apply validate_length.
Qed.

(** ** The calls of [Uri.parse] *)

Section CallFacts.

Context `{Host}.

Lemma fold_addImage text info l acc :
  fold_left (addImage text info) l acc
  = acc ++ flat_map (callIssues info) (omap (imageCall text) l).
Proof.
  revert acc. induction l as [|inp l IH]; intros acc; cbn [fold_left omap list_omap].
  - cbn. by rewrite app_nil_r.
  - rewrite IH. unfold addImage, imageCall. cbv zeta.
    destruct (negb _ && _); cbn [omap list_omap flat_map]; [|done].
    rewrite addDiagnostics_app, <- app_assoc. done.
Qed.

Lemma fold_onStartTag text info tnp tags acc :
  fold_left (onStartTag text info tnp) tags acc
  = acc ++ flat_map (callIssues info) (omap (tagCall text tnp) tags).
Proof.
  revert acc. induction tags as [|tag tags IH]; intros acc; cbn [fold_left omap list_omap].
  - cbn. by rewrite app_nil_r.
  - rewrite IH. unfold onStartTag, tagCall. cbv zeta.
    destruct (String.eqb (name tag) "img"); [|done].
    destruct (List.find _ (tag_attrs tag)) as [src|]; [|done].
    destruct (truthy (snd src)); [|done].
    destruct (negb _ && _); cbn [flat_map]; [|done].
    rewrite addDiagnostics_app, <- app_assoc. done.
Qed.

Lemma fold_addText text info l acc :
  fold_left (addText text info) l acc
  = acc ++ flat_map (callIssues info)
             (flat_map (fun tnp =>
                          omap (tagCall text tnp)
                               (startTags (Token.content (TokenAndPosition.token tnp)))) l).
Proof.
  revert acc. induction l as [|tnp l IH]; intros acc; cbn [fold_left flat_map].
  - by rewrite app_nil_r.
  - rewrite IH. unfold addText. rewrite fold_onStartTag, flat_map_app, app_assoc. done.
Qed.

(** The issues of a prose scan are the issues of its calls of
    [addDiagnostics], in their order: [proseCalls] lists every string the
    scan hands to [Uri.parse] at line 246. *)
Lemma proseDiagnostics_calls text info :
  proseDiagnostics text info = flat_map (callIssues info) (proseCalls text).
Proof.
  unfold proseDiagnostics, proseCalls. cbv zeta.
  rewrite fold_addText, fold_addImage, flat_map_app. done.
Qed.

(** The strings a manifest scan hands to [Uri.parse] at line 246 are the
    values of the reported nodes. *)
Lemma manifestDiagnostics_calls tree info :
  manifestDiagnostics tree info
  = if isExtension info
    then flat_map (fun r => validate (JsonNode.offset (snd r) + 1)
                              (JsonNode.offset (snd r) + JsonNode.length (snd r) - 1)
                              (JsonNode.value (snd r)) (fst r) info)
           (reportedNodes tree)
    else [].
Proof. apply manifestDiagnostics_reported. Qed.

(** *** Callbacks that return *)

(** The scan of a manifest returns when the document is closed or every
    call of [Uri.parse] returns, and in no other case; its result is then
    the one of [lintPackageJsonDocument]. *)
Lemma lintPackageJsonDocumentE_returned ws st document st' :
  lintPackageJsonDocumentE ws st document = returned st' <->
  (isClosed ws document = true
   \/ manifestParses (parseTree (getText ws document)) = true) /\
  st' = lintPackageJsonDocument ws st document.
Proof.
  unfold lintPackageJsonDocumentE, lintPackageJsonDocument, readPackageJsonInfoE,
    manifestParses. cbv zeta.
  destruct (isClosed ws document).
  { split; [intros [= <-]; auto|intros [_ ->]; done]. }
  destruct (repositoryParses (parseTree (getText ws document))).
  2:{ split; [done|]. intros [[?|?] _]; done. }
  destruct (readPackageJsonInfo ws _ _ _) as [info st1] eqn:Hr.
  assert (info = computeInfo (parseTree (getText ws document))) as ->.
  { by rewrite <- (readPackageJsonInfo_info ws (getUriFolder (uri document)) _
                     (with_packageJsonQ (set_delete document) st)), Hr. }
  cbn [andb].
  destruct (if isExtension _ then _ else _).
  - split; [intros [= <-]; auto|intros [_ ->]; done].
  - split; [done|]. intros [[?|?] _]; done.
Qed.

Lemma forEachE_returned ws documents st st' :
  forEachE (lintPackageJsonDocumentE ws) documents st = returned st' <->
  (forall d, In d documents -> isClosed ws d = false ->
             manifestParses (parseTree (getText ws d)) = true) /\
  st' = fold_left (lintPackageJsonDocument ws) documents st.
Proof.
  revert st. induction documents as [|d documents IH]; intros st;
    cbn [forEachE fold_left].
  - split; [intros [= <-]; split; [intros ? []|done]|intros [_ ->]; done].
  - destruct (lintPackageJsonDocumentE ws st d) as [st1|st1] eqn:Hd.
    + apply lintPackageJsonDocumentE_returned in Hd as [Hp ->].
      rewrite IH. split; intros [Hall ->]; (split; [|done]).
      * intros d' [<-|Hd'] Hopen; [|by apply Hall].
        destruct Hp as [Hp|Hp]; [congruence|done].
      * intros d' Hd'. apply Hall. by right.
    + split; [done|]. intros [Hall ->].
      assert (lintPackageJsonDocumentE ws st d
              = returned (lintPackageJsonDocument ws st d)) as Hret.
      { apply lintPackageJsonDocumentE_returned. split; [|done].
        destruct (isClosed ws d) eqn:Hc; [by left|right].
        apply Hall; [by left|done]. }
      congruence.
Qed.

(** The scan of an open manifest in which a call of [Uri.parse] throws:
    the manifest has left the queue and nothing is published. *)
Lemma lintPackageJsonDocumentE_thrown ws st document :
  isClosed ws document = false ->
  manifestParses (parseTree (getText ws document)) = false ->
  exists st',
    lintPackageJsonDocumentE ws st document = thrown st' /\
    packageJsonQ st' = set_delete document (packageJsonQ st) /\
    diagnosticsCollection st' = diagnosticsCollection st /\
    (forall d, In d (readmeQ st) -> In d (readmeQ st')) /\
    (repositoryParses (parseTree (getText ws document)) = false ->
     st' = with_packageJsonQ (set_delete document) st) /\
    (folderToPackageJsonInfo st !! Uri_toString (getUriFolder (uri document)) = None ->
     timer st' = timer st).
Proof.
  intros Hopen Hparses.
  unfold lintPackageJsonDocumentE, readPackageJsonInfoE. cbv zeta.
  rewrite Hopen. unfold manifestParses in Hparses.
  destruct (repositoryParses (parseTree (getText ws document))) eqn:Hrepo.
  - cbn [andb] in Hparses.
    pose proof (readPackageJsonInfo_fields ws (getUriFolder (uri document))
                  (parseTree (getText ws document))
                  (with_packageJsonQ (set_delete document) st))
      as (Hd & _ & Hp & Hr & Ht).
    pose proof (readPackageJsonInfo_info ws (getUriFolder (uri document))
                  (parseTree (getText ws document))
                  (with_packageJsonQ (set_delete document) st)) as Hinfo.
    cbv zeta in Hd, Hp, Hr, Ht.
    destruct (readPackageJsonInfo ws _ _ _) as [info st1]. cbn [fst snd] in *.
    subst info. rewrite Hparses. exists st1. split; [done|].
    split; [by rewrite Hp|]. split; [by rewrite Hd|].
    split; [intros d Hd'; apply Hr; by left|]. split; [done|].
    intros Hnone. rewrite Ht.
    cbn [with_packageJsonQ folderToPackageJsonInfo timer]. rewrite Hnone.
    apply orb_false_r.
  - eexists. split; [done|]. cbn. auto.
Qed.

(** When the loop of the prose scan returns, its result is the one of
    [lintReadmeLoop]. *)
Lemma lintReadmeLoopE_returned ws documents st st' :
  lintReadmeLoopE ws documents st = returned st' ->
  st' = lintReadmeLoop ws documents st.
Proof.
  revert st. induction documents as [|d documents IH]; intros st;
    cbn [lintReadmeLoopE lintReadmeLoop]; cbv zeta.
  - by intros [= <-].
  - destruct (isClosed ws d); [by intros [= <-]|].
    cbn [with_readmeQ folderToPackageJsonInfo].
    destruct (folderToPackageJsonInfo st !! Uri_toString (getUriFolder (uri d)))
      as [info|].
    + destruct (negb (isExtension info)); [by intros [= <-]|].
      destruct (proseParses (getText ws d)); [apply IH|done].
    + unfold readPackageJsonInfoE.
      destruct (repositoryParses _); [|done].
      destruct (readPackageJsonInfo ws _ _ _) as [info st1].
      destruct (negb (isExtension info)); [by intros [= <-]|].
      destruct (proseParses (getText ws d)); [apply IH|done].
Qed.

(** The loop returns when, for every open document of the list, the calls
    of [Uri.parse] on the URLs of its text return and, if no info of its
    folder is cached, the one on the repository URL of the manifest of the
    folder. *)
Lemma lintReadmeLoopE_returns ws documents st :
  (forall d, In d documents -> isClosed ws d = false ->
     proseParses (getText ws d) = true /\
     (folderToPackageJsonInfo st !! Uri_toString (getUriFolder (uri d)) = None ->
      repositoryParses (loadPackageJson ws (getUriFolder (uri d))) = true)) ->
  lintReadmeLoopE ws documents st = returned (lintReadmeLoop ws documents st).
Proof.
  revert st. induction documents as [|d documents IH]; intros st Hall;
    cbn [lintReadmeLoopE lintReadmeLoop]; cbv zeta; [done|].
  destruct (isClosed ws d) eqn:Hopen; [done|].
  destruct (Hall d (or_introl eq_refl) Hopen) as [Hprose Hrepo].
  cbn [with_readmeQ folderToPackageJsonInfo].
  destruct (folderToPackageJsonInfo st !! Uri_toString (getUriFolder (uri d)))
    as [info|] eqn:Hcache.
  - destruct (negb (isExtension info)); [done|]. rewrite Hprose.
    apply IH. intros d' Hd' Hopen'. cbn [with_diagnostics folderToPackageJsonInfo].
    apply Hall; [by right|done].
  - unfold readPackageJsonInfoE. rewrite (Hrepo eq_refl).
    pose proof (readPackageJsonInfo_fields ws (getUriFolder (uri d))
                  (loadPackageJson ws (getUriFolder (uri d)))
                  (with_readmeQ (set_delete d) st)) as (_ & Hc & _).
    cbv zeta in Hc.
    destruct (readPackageJsonInfo ws _ _ _) as [info st1]. cbn [snd] in Hc.
    destruct (negb (isExtension info)); [done|]. rewrite Hprose.
    apply IH. intros d' Hd' Hopen'. cbn [with_diagnostics folderToPackageJsonInfo].
    destruct (Hall d' (or_intror Hd') Hopen') as [Hprose' Hrepo'].
    split; [done|]. intros Hnone. apply Hrepo'.
    rewrite Hc in Hnone. cbn [with_readmeQ folderToPackageJsonInfo] in Hnone.
    apply lookup_insert_None in Hnone as [Hnone _]. done.
Qed.

(** When a callback returns, the linter is in the state of [step]. *)
Lemma stepE_returned ws st e st' :
  stepE ws st e = returned st' -> st' = step ws st e.
Proof.
  destruct e; cbn [stepE step]; try by intros [= <-].
  destruct (timer st); [|by intros [= <-]].
  unfold fireE, fire, lintE, lint, lintPackageJsonE, lintReadmeE, lintReadme,
    lintPackageJson.
  destruct (forEachE _ _ _) as [st1|st1] eqn:Hm; [|done].
  apply forEachE_returned in Hm as [_ ->].
  apply lintReadmeLoopE_returned.
Qed.

(** A run in which no call of [Uri.parse] threw is a run. *)
Lemma reachableParsing_reachable st : reachableParsing st -> reachable st.
Proof.
  induction 1 as [ws|ws st e st' _ IH Hstep]; [constructor|].
  rewrite (stepE_returned ws st e st' Hstep). by constructor.
Qed.

End CallFacts.

(** X5.  When every call of [Uri.parse] returns, the scan of an open
    manifest returns too; it removes the manifest from the manifest queue,
    publishes the issues of its tree under its URI and caches the info of
    the tree for its folder.  When the text gives no syntax tree, the published list is
    empty and the folder is cached as no extension, without an https
    repository. *)
Theorem manifest_scan_of_open_document `{Host} ws st document :
  isClosed ws document = false ->
  manifestParses (parseTree (getText ws document)) = true ->
  let tree := parseTree (getText ws document) in
  let st' := lintPackageJsonDocument ws st document in
  lintPackageJsonDocumentE ws st document = returned st' /\
  ~ In document (packageJsonQ st') /\
  diagnosticsCollection st' !! uri document
    = Some (manifestDiagnostics tree (computeInfo tree)) /\
  folderToPackageJsonInfo st' !! Uri_toString (getUriFolder (uri document))
    = Some (computeInfo tree) /\
  (tree = None ->
   diagnosticsCollection st' !! uri document = Some [] /\
   folderToPackageJsonInfo st' !! Uri_toString (getUriFolder (uri document))
     = Some (mkInfo false false)).
Proof.
  intros Hopen Hparses tree st'.
  split; [apply lintPackageJsonDocumentE_returned; auto|].
  destruct (lintPackageJsonDocument_fields ws st document) as (Hq & _ & Ho & _).
  destruct (Ho Hopen) as [Hd Hc]. fold st' tree in Hq, Hd, Hc.
  assert (diagnosticsCollection st' !! uri document
          = Some (manifestDiagnostics tree (computeInfo tree))) as Hpub.
  { rewrite Hd. apply lookup_insert_eq. }
  assert (folderToPackageJsonInfo st' !! Uri_toString (getUriFolder (uri document))
          = Some (computeInfo tree)) as Hcache.
  { rewrite Hc. apply lookup_insert_eq. }
  split; [|split; [done|split; [done|]]].
  - rewrite Hq, set_delete_In. tauto.
  - intros Ht. rewrite Hpub, Hcache, Ht. done.
Qed.

Lemma manifest_scan_of_open_document_witness :
  diagnosticsCollection
    (@lintPackageJsonDocument plainHost workspace7 (constructor workspace7) packageJson)
    !! uri packageJson = Some [] /\
  folderToPackageJsonInfo
    (@lintPackageJsonDocument plainHost workspace7 (constructor workspace7) packageJson)
    !! "file:///ext"%string = Some (mkInfo false false).
Proof.
  apply (@manifest_scan_of_open_document plainHost workspace7 (constructor workspace7)
           packageJson eq_refl eq_refl).
  reflexivity.
Defined.

(** X6.  When [Uri.parse] accepts the repository URL of the tree, if the
    tree has one, [readPackageJsonInfo] returns: it answers the info of the
    tree and caches it for the folder, leaving the other folders, the published
    issues and the manifest queue as they are.  The prose queue and the timer change only
    when an info was cached for the folder and differs from the new one:
    then the prose documents of the workspace whose folder is the same up to
    the case of the letters, and no others, join the queue. *)
Theorem readPackageJsonInfo_effect `{Host} ws folder tree st :
  repositoryParses tree = true ->
  let info := fst (readPackageJsonInfo ws folder tree st) in
  let st' := snd (readPackageJsonInfo ws folder tree st) in
  let changed :=
    exists oldInfo, folderToPackageJsonInfo st !! Uri_toString folder = Some oldInfo /\
                    oldInfo <> info in
  readPackageJsonInfoE ws folder tree st = Some (info, st') /\
  info = computeInfo tree /\
  folderToPackageJsonInfo st' !! Uri_toString folder = Some info /\
  (forall key, key <> Uri_toString folder ->
               folderToPackageJsonInfo st' !! key = folderToPackageJsonInfo st !! key) /\
  diagnosticsCollection st' = diagnosticsCollection st /\
  packageJsonQ st' = packageJsonQ st /\
  (forall d, In d (readmeQ st') <->
             In d (readmeQ st) \/
             (changed /\ In d (textDocuments ws) /\ isReadme d = true /\
              toLowerCase (Uri_toString (getUriFolder (uri d)))
              = toLowerCase (Uri_toString folder))) /\
  (~ changed -> readmeQ st' = readmeQ st /\ timer st' = timer st).
Proof.
  intros Hparses. cbv zeta. split.
  { unfold readPackageJsonInfoE. rewrite Hparses.
    by destruct (readPackageJsonInfo ws folder tree st). }
  rewrite readPackageJsonInfo_info.
  destruct (readPackageJsonInfo_fields ws folder tree st) as (Hd & Hc & Hp & Hr & Ht).
  cbv zeta in *.
  assert (forall b : bool,
            b = match folderToPackageJsonInfo st !! Uri_toString folder with
                | Some oldInfo => bool_decide (oldInfo <> computeInfo tree)
                | None => false
                end ->
            (b = true <->
             exists oldInfo,
               folderToPackageJsonInfo st !! Uri_toString folder = Some oldInfo /\
               oldInfo <> computeInfo tree)) as Hch.
  { intros b ->. destruct (folderToPackageJsonInfo st !! Uri_toString folder) as [o|].
    - rewrite bool_decide_eq_true. split; [eauto|]. by intros (o' & [= <-] & ?).
    - split; [done|]. by intros (? & ? & _). }
  specialize (Hch _ eq_refl).
  split; [done|]. split; [rewrite Hc; apply lookup_insert_eq|].
  split; [intros key Hk; rewrite Hc; by apply lookup_insert_ne|].
  split; [done|]. split; [done|]. split.
  - intros d. rewrite Hr, Hch. unfold inFolder. rewrite filter_In, String.eqb_eq. tauto.
  - intros Hn.
    destruct (match folderToPackageJsonInfo st !! Uri_toString folder with
              | Some oldInfo => bool_decide (oldInfo <> computeInfo tree)
              | None => false
              end) eqn:Hb.
    { exfalso. apply Hn, Hch. done. }
    rewrite Ht, orb_false_r. split; [|done].
    unfold readPackageJsonInfo. cbv zeta. cbn [snd].
    destruct (folderToPackageJsonInfo st !! Uri_toString folder) as [o|]; [|done].
    assert ((negb (Bool.eqb (isExtension o) (isExtension (computeInfo tree)))
             || negb (Bool.eqb (hasHttpsRepository o)
                               (hasHttpsRepository (computeInfo tree)))) = false) as ->.
    { apply bool_decide_eq_false in Hb. apply dec_stable in Hb. subst o.
      by destruct (computeInfo tree) as [[] []]. }
    done.
Qed.

Lemma readPackageJsonInfo_effect_witness :
  In readme
     (readmeQ (snd (@readPackageJsonInfo proseHost workspace3 (file "/ext")
                      (@parseTree proseHost "{}") run1))) /\
  ~ In readme (readmeQ run1).
Proof.
  split.
  - apply (proj1 (proj2 (proj2 (proj2 (proj2 (proj2 (proj2
             (@readPackageJsonInfo_effect proseHost workspace3 (file "/ext")
                (@parseTree proseHost "{}") run1 eq_refl)))))))).
    right. split; [|split; [|split]].
    + exists (mkInfo true false). split; [reflexivity|discriminate].
    + vm_compute. tauto.
    + reflexivity.
    + reflexivity.
  - vm_compute. tauto.
Defined.

(** ** The drain of the manifest queue *)

Section DrainProperties.

Context `{Host}.

Lemma fold_set_delete_nil (l q : list TextDocument) :
  (forall d, In d q -> In d l) ->
  fold_left (fun q d => set_delete d q) l q = [].
Proof.
  revert q. induction l as [|a l IH]; intros q Hq; cbn.
  - destruct q as [|d q]; [done|]. destruct (Hq d); by left.
  - apply IH. intros d [Hd Hne]%set_delete_In.
    destruct (Hq d Hd) as [->|]; done.
Qed.

Lemma fold_lintPackageJsonDocument_packageJsonQ ws l st :
  packageJsonQ (fold_left (lintPackageJsonDocument ws) l st)
  = fold_left (fun q d => set_delete d q) l (packageJsonQ st).
Proof.
  revert st. induction l as [|a l IH]; intros st; cbn; [done|].
  rewrite IH. by destruct (lintPackageJsonDocument_fields ws st a) as (-> & _).
Qed.

Lemma fold_lintPackageJsonDocument_readmeQ ws l st d :
  In d (readmeQ (fold_left (lintPackageJsonDocument ws) l st)) ->
  In d (readmeQ st) \/ In d (textDocuments ws).
Proof.
  revert st. induction l as [|a l IH]; intros st; cbn; [by left|].
  intros [Hin|Hin]%IH; [|by right].
  by destruct (lintPackageJsonDocument_fields ws st a) as (_ & _ & _ & Hr); apply Hr.
Qed.

(** What [lintPackageJson] publishes, for a list of documents of pairwise
    different URIs. *)
Lemma fold_lintPackageJsonDocument_diagnostics ws l st :
  NoDup (uris l) ->
  let st' := fold_left (lintPackageJsonDocument ws) l st in
  (forall u, ~ In u (uris l) ->
             diagnosticsCollection st' !! u = diagnosticsCollection st !! u) /\
  (forall d, In d l ->
     diagnosticsCollection st' !! uri d =
     if isClosed ws d then diagnosticsCollection st !! uri d
     else Some (manifestDiagnostics (parseTree (getText ws d))
                  (computeInfo (parseTree (getText ws d))))).
Proof.
  revert st. induction l as [|a l IH]; intros st Hnd; cbn [fold_left]; cbv zeta.
  - split; [done|]. intros d [].
  - cbn [uris List.map] in Hnd. apply NoDup_cons in Hnd as [Hnotin Hnd'].
    rewrite list_elem_of_In in Hnotin.
    destruct (IH (lintPackageJsonDocument ws st a) Hnd') as [Hframe Hpub].
    cbv zeta in *.
    destruct (lintPackageJsonDocument_fields ws st a) as (_ & Hc & Ho & _).
    cbv zeta in *.
    assert (forall u, u <> uri a ->
              diagnosticsCollection (lintPackageJsonDocument ws st a) !! u
              = diagnosticsCollection st !! u) as Hother.
    { intros u Hu. destruct (isClosed ws a).
      - by destruct (Hc eq_refl) as (-> & _).
      - destruct (Ho eq_refl) as (-> & _). by apply lookup_insert_ne. }
    split.
    + intros u Hu. cbn in Hu. rewrite Hframe by (unfold uris; tauto).
      apply Hother. intros ->. tauto.
    + intros d [<-|Hd].
      * rewrite Hframe by done. destruct (isClosed ws a).
        -- by destruct (Hc eq_refl) as (-> & _).
        -- destruct (Ho eq_refl) as (-> & _). apply lookup_insert_eq.
      * rewrite (Hpub d Hd). destruct (isClosed ws d); [|done].
        apply Hother. intros Heq. apply Hnotin. rewrite <- Heq. by apply in_map.
Qed.

Lemma lintReadmeLoop_frame ws documents st :
  packageJsonQ (lintReadmeLoop ws documents st) = packageJsonQ st /\
  (forall u, ~ In u (uris documents) ->
     diagnosticsCollection (lintReadmeLoop ws documents st) !! u
     = diagnosticsCollection st !! u).
Proof.
  revert st. induction documents as [|d documents IH]; intros st; [done|].
  cbn [lintReadmeLoop]. destruct (isClosed ws d); [done|].
  match goal with |- context [let '(_, _) := ?x in _] =>
    assert (packageJsonQ (snd x) = packageJsonQ st /\
            diagnosticsCollection (snd x) = diagnosticsCollection st) as [Hp Hd];
    [|destruct x as [info st']] end.
  { cbn [with_readmeQ folderToPackageJsonInfo].
    destruct (folderToPackageJsonInfo st !! _); [done|].
    destruct (readPackageJsonInfo_fields ws (getUriFolder (uri d))
                (loadPackageJson ws (getUriFolder (uri d)))
                (with_readmeQ (set_delete d) st)) as (Hd & _ & Hp & _).
    cbv zeta in *. by rewrite Hd, Hp. }
  cbn [snd] in Hp, Hd. destruct (negb (isExtension info)).
  - cbn. split; [done|]. intros u Hu. rewrite Hd. apply lookup_insert_ne. tauto.
  - destruct (IH (with_diagnostics (insert (uri d)
                    (proseDiagnostics (getText ws d) info)) st')) as [-> Hf].
    split; [done|]. intros u Hu. cbn in Hu. rewrite Hf by tauto. cbn.
    rewrite Hd. apply lookup_insert_ne. tauto.
Qed.

Lemma set_add_idempotent document q :
  set_add document (set_add document q) = set_add document q.
Proof.
  unfold set_add. destruct (decide (document ∈ q)) as [Hin|Hin].
  - by rewrite decide_True.
  - rewrite decide_True; [done|]. apply elem_of_app. right. by apply list_elem_of_singleton.
Qed.

(** A queued manifest has a pending timeout. *)
Lemma reachable_timer st :
  reachable st -> packageJsonQ st <> [] -> timer st = true.
Proof.
  induction 1 as [ws|ws st e _ IH].
  - unfold constructor. generalize (textDocuments ws) as l. intros l.
    assert (packageJsonQ empty_linter <> [] -> timer empty_linter = true) as Hst by done.
    revert Hst. generalize empty_linter as st. induction l as [|d l IHl]; intros st Hst;
      cbn [fold_left]; [done|].
    apply IHl. unfold queue, queueReadme.
    destruct (isPackageJson d), (isReadme d); cbn; auto.
  - destruct e; cbn [step].
    + unfold queue, queueReadme. destruct (isPackageJson document), (isReadme document);
        cbn; auto.
    + unfold queue, queueReadme. destruct (isPackageJson document), (isReadme document);
        cbn; auto.
    + cbn. intros Hq. apply IH. intros Hnil. rewrite Hnil in Hq. done.
    + destruct (timer st) eqn:Ht; [|intros Hq; specialize (IH Hq); congruence].
      intros Hq. exfalso. apply Hq.
      unfold fire, lint, lintReadme.
      rewrite (proj1 (lintReadmeLoop_frame ws _ _)). unfold lintPackageJson.
      rewrite fold_lintPackageJsonDocument_packageJsonQ. by apply fold_set_delete_nil.
Qed.

End DrainProperties.

(** X7.  When every call of [Uri.parse] returns in the scans of the open
    manifests of the queue, [lintPackageJson] returns and has drained the
    manifest queue: after it the queue is empty, closed documents
    included.  It publishes nothing for a URI that no queued document has,
    and what it adds to the prose queue are documents of the workspace. *)
Theorem manifest_queue_is_drained `{Host} ws st :
  (forall d, In d (packageJsonQ st) -> isClosed ws d = false ->
             manifestParses (parseTree (getText ws d)) = true) ->
  lintPackageJsonE ws st = returned (lintPackageJson ws st) /\
  packageJsonQ (lintPackageJson ws st) = [] /\
  (forall d, In d (readmeQ (lintPackageJson ws st)) ->
             In d (readmeQ st) \/ In d (textDocuments ws)) /\
  (NoDup (uris (packageJsonQ st)) ->
   forall u, ~ In u (uris (packageJsonQ st)) ->
     diagnosticsCollection (lintPackageJson ws st) !! u = diagnosticsCollection st !! u).
Proof.
  intros Hparses. split.
  { unfold lintPackageJsonE. by apply forEachE_returned. }
  unfold lintPackageJson. split; [|split].
  - rewrite fold_lintPackageJsonDocument_packageJsonQ. by apply fold_set_delete_nil.
  - intros d. apply fold_lintPackageJsonDocument_readmeQ.
  - intros Hnd. by apply fold_lintPackageJsonDocument_diagnostics.
Qed.

Lemma manifest_queue_is_drained_witness :
  diagnosticsCollection (@lintPackageJson proseHost workspace3 (constructor workspace3))
    !! uri notes
  = diagnosticsCollection (constructor workspace3) !! uri notes.
Proof.
  assert (forall d, In d (packageJsonQ (constructor workspace3)) ->
                    isClosed workspace3 d = false ->
                    @manifestParses proseHost
                      (@parseTree proseHost (getText workspace3 d)) = true) as Hparses.
  { intros d Hd _. vm_compute in Hd. destruct Hd as [<-|[]]. reflexivity. }
  apply (proj2 (proj2 (proj2 (@manifest_queue_is_drained proseHost workspace3
                                (constructor workspace3) Hparses)))).
  - apply NoDup_singleton.
  - vm_compute. intuition discriminate.
Defined.

(** X8.  When the queued manifests have pairwise different URIs and every
    call of [Uri.parse] returns in the scans of the open ones,
    [lintPackageJson] returns and has published for every open one the
    issues of its own text, and has left what was published for a closed
    one as it was: a closed manifest is skipped and the scan goes on with
    the others. *)
Theorem every_queued_manifest_is_scanned `{Host} ws st document :
  (forall d, In d (packageJsonQ st) -> isClosed ws d = false ->
             manifestParses (parseTree (getText ws d)) = true) ->
  NoDup (uris (packageJsonQ st)) ->
  In document (packageJsonQ st) ->
  lintPackageJsonE ws st = returned (lintPackageJson ws st) /\
  diagnosticsCollection (lintPackageJson ws st) !! uri document =
  if isClosed ws document then diagnosticsCollection st !! uri document
  else Some (manifestDiagnostics (parseTree (getText ws document))
               (computeInfo (parseTree (getText ws document)))).
Proof.
  intros Hparses Hnd Hin. split.
  { unfold lintPackageJsonE. by apply forEachE_returned. }
  unfold lintPackageJson.
  by apply (proj2 (fold_lintPackageJsonDocument_diagnostics ws _ st Hnd)).
Qed.

Lemma every_queued_manifest_is_scanned_witness :
  diagnosticsCollection (@lintPackageJson proseHost workspace3 (constructor workspace3))
    !! uri packageJson
  = Some [mkDiagnostic 39 57 httpsRequired Warning].
Proof.
  assert (forall d, In d (packageJsonQ (constructor workspace3)) ->
                    isClosed workspace3 d = false ->
                    @manifestParses proseHost
                      (@parseTree proseHost (getText workspace3 d)) = true) as Hparses.
  { intros d Hd _. vm_compute in Hd. destruct Hd as [<-|[]]. reflexivity. }
  rewrite (proj2 (@every_queued_manifest_is_scanned proseHost workspace3
                    (constructor workspace3) packageJson Hparses
                    (NoDup_singleton _) (or_introl eq_refl))).
  reflexivity.
Defined.

(** X9.  Queueing is idempotent: a second open or change event for the same
    document leaves the linter as the first left it, so that a burst of
    edits makes one scan.  After the event of a linted document a timeout is
    pending. *)
Theorem queue_is_idempotent document st :
  queue document (queue document st) = queue document st /\
  (linted document = true -> timer (queue document st) = true) /\
  (isPackageJson document = true -> In document (packageJsonQ (queue document st))) /\
  (isReadme document = true -> In document (readmeQ (queue document st))).
Proof.
  unfold linted, queue, queueReadme.
  destruct (isPackageJson document), (isReadme document);
    unfold startTimer, with_readmeQ, with_packageJsonQ; cbn;
    rewrite ?set_add_idempotent, ?set_add_In;
    (split; [reflexivity|]); repeat split; intros; try discriminate; auto.
Qed.

Lemma queue_is_idempotent_witness :
  timer (queue readme empty_linter) = true /\
  In readme (readmeQ (queue readme empty_linter)).
Proof.
  split.
  - apply (proj1 (proj2 (queue_is_idempotent readme empty_linter))). reflexivity.
  - apply (proj2 (proj2 (proj2 (queue_is_idempotent readme empty_linter)))). reflexivity.
Defined.

(** X10.  In every state a linter reaches while no call of [Uri.parse]
    throws, a manifest in the queue has a pending timeout, and an expiry of
    the timeout that returns leaves the manifest queue empty. *)
Theorem queued_manifest_has_pending_timeout `{Host} ws st :
  reachableParsing st ->
  (packageJsonQ st <> [] -> timer st = true) /\
  (forall st', stepE ws st timeout = returned st' -> packageJsonQ st' = []).
Proof.
  intros Hr%reachableParsing_reachable.
  pose proof (reachable_timer st Hr) as Ht. split; [done|].
  intros st' ->%stepE_returned.
  cbn [step]. destruct (timer st) eqn:Htimer.
  - unfold fire, lint, lintReadme.
    rewrite (proj1 (lintReadmeLoop_frame ws _ _)). unfold lintPackageJson.
    rewrite fold_lintPackageJsonDocument_packageJsonQ. by apply fold_set_delete_nil.
  - destruct (packageJsonQ st); [done|]. by discriminate Ht.
Qed.

Lemma queued_manifest_has_pending_timeout_witness :
  timer (constructor workspace3) = true /\
  packageJsonQ (@step proseHost workspace3 (constructor workspace3) timeout) = [].
Proof.
  destruct (@queued_manifest_has_pending_timeout proseHost workspace3
              (constructor workspace3)) as [Ht Hq].
  - apply (@reachableParsing_constructor proseHost).
  - split; [apply Ht; discriminate|]. apply Hq. vm_compute. reflexivity.
Defined.

(** X11.  The expiry of the timeout publishes nothing for a URI that belongs
    to no document of the two queues and to no document of the workspace:
    what is published under such a URI stays as it is. *)
Theorem timeout_frame `{Host} ws st u :
  NoDup (uris (packageJsonQ st)) ->
  ~ In u (uris (packageJsonQ st)) ->
  ~ In u (uris (readmeQ st)) ->
  ~ In u (uris (textDocuments ws)) ->
  diagnosticsCollection (step ws st timeout) !! u = diagnosticsCollection st !! u.
Proof.
  intros Hnd Hp Hr Hw. cbn [step]. destruct (timer st); [|done].
  unfold fire, lint, lintReadme.
  match goal with |- context [lintPackageJson ws ?s] => set (st0 := s) end.
  rewrite (proj2 (lintReadmeLoop_frame ws _ _)).
  - unfold lintPackageJson.
    by rewrite (proj1 (fold_lintPackageJsonDocument_diagnostics ws _ st0 Hnd)).
  - unfold uris. rewrite in_map_iff. intros (d & <- & Hd).
    apply fold_lintPackageJsonDocument_readmeQ in Hd as [Hd|Hd].
    + apply Hr. by apply in_map.
    + apply Hw. by apply in_map.
Qed.

Lemma timeout_frame_witness :
  diagnosticsCollection (@step proseHost workspace3 (constructor workspace3) timeout)
    !! uri notes = None.
Proof.
  rewrite (@timeout_frame proseHost workspace3 (constructor workspace3) (uri notes)).
  - reflexivity.
  - apply NoDup_singleton.
  - vm_compute. intuition discriminate.
  - vm_compute. intuition discriminate.
  - vm_compute. intuition discriminate.
Defined.

(** ** The drain of the prose queue *)

Section ProseQueueProperties.

Context `{Host}.

Lemma fold_set_delete_In (l q : list TextDocument) d :
  In d (fold_left (fun q d => set_delete d q) l q) <-> In d q /\ ~ In d l.
Proof.
  revert q. induction l as [|a l IH]; intros q; cbn; [tauto|].
  rewrite IH, set_delete_In. intuition congruence.
Qed.

Lemma set_delete_length document q :
  (List.length (set_delete document q) <= List.length q)%nat /\
  (In document q -> (List.length (set_delete document q) < List.length q)%nat).
Proof.
  unfold set_delete. induction q as [|a q [IH1 IH2]]; cbn; [split; [lia|done]|].
  destruct (bool_decide_reflect (a <> document)) as [Hne|Heq]; cbn.
  - split; [lia|]. intros [?|Hin]; [done|]. specialize (IH2 Hin). lia.
  - split; [lia|]. intros _. lia.
Qed.

Lemma fold_set_delete_length (l q : list TextDocument) :
  (List.length (fold_left (fun q d => set_delete d q) l q) <= List.length q)%nat.
Proof.
  revert q. induction l as [|a l IH]; intros q; cbn; [lia|].
  specialize (IH (set_delete a q)). pose proof (proj1 (set_delete_length a q)). lia.
Qed.

(** Without a cached info [readPackageJsonInfo] only fills the cache. *)
Lemma readPackageJsonInfo_uncached ws folder tree st :
  folderToPackageJsonInfo st !! Uri_toString folder = None ->
  readPackageJsonInfo ws folder tree st =
  (computeInfo tree, with_info (insert (Uri_toString folder) (computeInfo tree)) st).
Proof. intros Hc. unfold readPackageJsonInfo. cbv zeta. by rewrite Hc. Qed.

(** The loop takes a prefix of the array out of the prose queue, and at
    least the first document. *)
Lemma lintReadmeLoop_readmeQ ws documents st :
  exists k,
    (documents <> [] -> 1 <= k)%nat /\
    readmeQ (lintReadmeLoop ws documents st)
    = fold_left (fun q d => set_delete d q) (take k documents) (readmeQ st).
Proof.
  revert st. induction documents as [|d documents IH]; intros st.
  - exists 0%nat. split; [done|]. reflexivity.
  - cbn [lintReadmeLoop]. destruct (isClosed ws d).
    { exists 1%nat. split; [lia|]. reflexivity. }
    match goal with |- context [let '(_, _) := ?x in _] =>
      assert (readmeQ (snd x) = set_delete d (readmeQ st)) as Hq;
      [|destruct x as [info st']] end.
    { cbn [with_readmeQ folderToPackageJsonInfo].
      destruct (folderToPackageJsonInfo st !! _) eqn:Hc; [done|].
      by rewrite readPackageJsonInfo_uncached. }
    cbn [snd] in Hq. destruct (negb (isExtension info)).
    { exists 1%nat. split; [lia|]. cbn. by rewrite Hq. }
    destruct (IH (with_diagnostics (insert (uri d)
                    (proseDiagnostics (getText ws d) info)) st')) as (k & _ & Hk).
    exists (S k). split; [lia|]. rewrite Hk. cbn. by rewrite Hq.
Qed.

(** The loop on documents that are open and cached as extensions: every
    one is scanned with the cached info. *)
Lemma lintReadmeLoop_cached ws documents st :
  cachedExtensions ws st documents ->
  NoDup (uris documents) ->
  let st' := lintReadmeLoop ws documents st in
  folderToPackageJsonInfo st' = folderToPackageJsonInfo st /\
  timer st' = timer st /\
  readmeQ st' = fold_left (fun q d => set_delete d q) documents (readmeQ st) /\
  (forall d info,
     In d documents ->
     folderToPackageJsonInfo st !! Uri_toString (getUriFolder (uri d)) = Some info ->
     diagnosticsCollection st' !! uri d = Some (proseDiagnostics (getText ws d) info)).
Proof.
  revert st. induction documents as [|d documents IH]; intros st Hc Hnd; cbv zeta.
  - split; [done|]. split; [done|]. split; [done|]. intros ? ? [].
  - cbn [uris List.map] in Hnd. apply NoDup_cons in Hnd as [Hnotin Hnd].
    rewrite list_elem_of_In in Hnotin.
    destruct (Hc d (or_introl eq_refl)) as (Hopen & info & Hinfo & Hext).
    cbn [lintReadmeLoop]. rewrite Hopen. cbn [with_readmeQ folderToPackageJsonInfo].
    rewrite Hinfo, Hext. cbn [negb].
    set (st1 := with_diagnostics _ _).
    assert (cachedExtensions ws st1 documents) as Hc1.
    { intros d' Hd'. apply Hc. by right. }
    destruct (IH st1 Hc1 Hnd) as (Hca & Ht & Hq & Hpub). cbv zeta in *.
    rewrite Hca, Ht, Hq. split; [done|]. split; [done|]. split; [done|].
    intros d' info' [<-|Hd'] Hinfo'.
    + rewrite (proj2 (lintReadmeLoop_frame ws documents st1)) by done.
      subst st1. cbn. rewrite lookup_insert_eq. congruence.
    + by apply Hpub.
Qed.

(** With every folder cached the loop does not load a manifest. *)
Lemma lintReadmeLoop_no_load ws open documents st :
  cachedExtensions ws st documents ->
  lintReadmeLoop (with_openTextDocument ws open) documents st
  = lintReadmeLoop ws documents st.
Proof.
  revert st. induction documents as [|d documents IH]; intros st Hc; [done|].
  destruct (Hc d (or_introl eq_refl)) as (Hopen & info & Hinfo & Hext).
  cbn [lintReadmeLoop with_openTextDocument isClosed getText]. rewrite Hopen.
  cbn [with_readmeQ folderToPackageJsonInfo]. rewrite Hinfo, Hext. cbn [negb].
  apply IH. intros d' Hd'. apply Hc. by right.
Qed.

End ProseQueueProperties.

(** X12.  Every expiry of the timeout makes the prose queue shorter when it
    is not empty: [lintReadme] takes the first document out, adds none and
    leaves the manifest queue as it is. *)
Theorem prose_queue_shrinks `{Host} ws st document rest :
  readmeQ st = document :: rest ->
  ~ In document (readmeQ (lintReadme ws st)) /\
  (forall d, In d (readmeQ (lintReadme ws st)) -> In d rest) /\
  (List.length (readmeQ (lintReadme ws st)) < List.length (readmeQ st))%nat /\
  packageJsonQ (lintReadme ws st) = packageJsonQ st.
Proof.
  intros Hq. unfold lintReadme.
  destruct (lintReadmeLoop_readmeQ ws (readmeQ st) st) as (k & Hk & ->).
  rewrite Hq in *. destruct k as [|k]; [specialize (Hk ltac:(done)); lia|].
  cbn [take fold_left].
  assert (forall d, In d (fold_left (fun q d => set_delete d q) (take k rest)
                            (set_delete document (document :: rest))) ->
                    In d rest /\ d <> document) as Hin.
  { intros d [[[<-|?] ?]%set_delete_In _]%fold_set_delete_In; done. }
  split; [|split; [|split]].
  - intros Hd%Hin. tauto.
  - intros d Hd%Hin. tauto.
  - pose proof (fold_set_delete_length (take k rest)
                  (set_delete document (document :: rest))) as Hle.
    pose proof (proj2 (set_delete_length document (document :: rest))
                  (or_introl eq_refl)). lia.
  - apply lintReadmeLoop_frame.
Qed.

Lemma prose_queue_shrinks_witness :
  ~ In readme (readmeQ (@lintReadme proseHost workspace5 closedReadme)) /\
  (List.length (readmeQ (@lintReadme proseHost workspace5 closedReadme))
   < List.length (readmeQ closedReadme))%nat.
Proof.
  destruct (@prose_queue_shrinks proseHost workspace5 closedReadme readme [changelog]
              eq_refl) as (H1 & _ & H2 & _).
  split; [exact H1|exact H2].
Defined.

(** X13.  When every document of the prose queue is open, lies in a folder
    that is cached as an extension, and no two have the same URI, and when
    every call of [Uri.parse] returns in the scans of their texts,
    [lintReadme] returns: it empties the queue and publishes for each document the
    issues of its own text under the cached info; it changes neither the
    cache nor the timer and does not open a manifest. *)
Theorem prose_queue_is_drained_when_cached `{Host} ws st :
  cachedExtensions ws st (readmeQ st) ->
  NoDup (uris (readmeQ st)) ->
  (forall d, In d (readmeQ st) -> proseParses (getText ws d) = true) ->
  lintReadmeE ws st = returned (lintReadme ws st) /\
  readmeQ (lintReadme ws st) = [] /\
  folderToPackageJsonInfo (lintReadme ws st) = folderToPackageJsonInfo st /\
  timer (lintReadme ws st) = timer st /\
  (forall d info,
     In d (readmeQ st) ->
     folderToPackageJsonInfo st !! Uri_toString (getUriFolder (uri d)) = Some info ->
     diagnosticsCollection (lintReadme ws st) !! uri d
     = Some (proseDiagnostics (getText ws d) info)) /\
  (forall open, lintReadme (with_openTextDocument ws open) st = lintReadme ws st).
Proof.
  intros Hc Hnd Hparses. split.
  { unfold lintReadmeE, lintReadme. apply lintReadmeLoopE_returns.
    intros d Hd _. split; [by apply Hparses|].
    destruct (Hc d Hd) as (_ & info & Hinfo & _). congruence. }
  unfold lintReadme.
  destruct (lintReadmeLoop_cached ws (readmeQ st) st Hc Hnd) as (Hca & Ht & Hq & Hpub).
  cbv zeta in *. split; [|split; [done|split; [done|split; [done|]]]].
  - rewrite Hq. by apply fold_set_delete_nil.
  - intros open. by apply lintReadmeLoop_no_load.
Qed.

Lemma prose_queue_is_drained_when_cached_witness :
  readmeQ (@lintReadme proseHost workspace3 afterManifests) = [] /\
  diagnosticsCollection (@lintReadme proseHost workspace3 afterManifests) !! uri changelog
  = Some (@proseDiagnostics proseHost (getText workspace3 changelog) (mkInfo true false)).
Proof.
  destruct (@prose_queue_is_drained_when_cached proseHost workspace3 afterManifests)
    as (_ & Hq & _ & _ & Hpub & _).
  - intros d Hd. vm_compute in Hd. destruct Hd as [<-|[<-|[]]].
    + split; [reflexivity|]. exists (mkInfo true false). split; reflexivity.
    + split; [reflexivity|]. exists (mkInfo true false). split; reflexivity.
  - change (uris (readmeQ afterManifests)) with [uri readme; uri changelog].
    apply NoDup_cons. split; [|apply NoDup_singleton].
    intros Hin%list_elem_of_singleton. discriminate Hin.
  - intros d Hd. vm_compute in Hd. destruct Hd as [<-|[<-|[]]]; reflexivity.
  - split; [exact Hq|]. apply Hpub; [|reflexivity]. vm_compute. tauto.
Defined.

(** ** The position mapper and the prose scan *)

Section MapperProperties.

Context `{Host}.

(** An occurrence found by [indexOf]: where it lies and what stands there. *)
Lemma indexOf_occurrence s sub pos :
  indexOf s sub pos <> -1 ->
  Z.min (Z.max pos 0) (len s) <= indexOf s sub pos /\
  indexOf s sub pos + len sub <= len s /\
  String.prefix sub (drop (Z.to_nat (indexOf s sub pos)) s) = true.
Proof.
  intros Hfound. destruct (indexOf_spec s sub pos) as [?|[H1 H2]]; [done|].
  split; [done|]. split; [done|].
  unfold indexOf in *. set (start := Z.min (Z.max pos 0) (len s)) in *.
  pose proof (len_nonneg s) as Hl.
  assert (0 <= start <= len s) as Hs by (unfold start; lia).
  destruct (find_at_spec sub (drop (Z.to_nat start) s) start _ ltac:(lia) eq_refl)
    as [?|(_ & _ & Hp)]; [done|].
  rewrite drop_drop in Hp.
  replace (Z.to_nat (find_at sub (drop (Z.to_nat start) s) start - start)
           + Z.to_nat start)%nat
    with (Z.to_nat (find_at sub (drop (Z.to_nat start) s) start)) in Hp by lia.
  done.
Qed.

Lemma truthy_true s : truthy s = true <-> s <> ""%string.
Proof. unfold truthy. rewrite negb_true_iff. apply String.eqb_neq. Qed.

(** The callback on a token without line range. *)
Lemma position_no_map text end_ begin token :
  Token.map token = None ->
  let tnp := fst (position text end_ begin token) in
  TokenAndPosition.token tnp = token /\
  snd (position text end_ begin token) = TokenAndPosition.end_ tnp /\
  begin <= TokenAndPosition.begin tnp /\
  ((TokenAndPosition.begin tnp = begin /\ TokenAndPosition.end_ tnp = begin) \/
   (contentOf token <> ""%string /\
    0 <= TokenAndPosition.begin tnp /\
    TokenAndPosition.end_ tnp = TokenAndPosition.begin tnp + len (contentOf token) /\
    TokenAndPosition.end_ tnp <= end_ /\
    TokenAndPosition.end_ tnp <= len text /\
    String.prefix (contentOf token)
      (drop (Z.to_nat (TokenAndPosition.begin tnp)) text) = true)).
Proof.
  intros Hmap. unfold position. rewrite Hmap. cbv zeta.
  destruct (truthy (contentOf token)) eqn:Ht;
    [|cbn; split; [done|]; split; [done|]; split; [lia|by left]].
  destruct (Z.eqb_spec (indexOf text (contentOf token) begin) (-1)) as [|Hf];
    [cbn; split; [done|]; split; [done|]; split; [lia|by left]|].
  cbn [negb].
  destruct (Z.leb_spec (indexOf text (contentOf token) begin + len (contentOf token))
              end_) as [Hle|];
    [|cbn; split; [done|]; split; [done|]; split; [lia|by left]].
  cbn. split; [done|]. split; [done|].
  destruct (indexOf_occurrence _ _ _ Hf) as (H1 & H2 & H3).
  apply truthy_true in Ht.
  pose proof (len_nonneg text). pose proof (len_nonneg (contentOf token)).
  assert (0 < len (contentOf token)).
  { destruct (Z.eq_dec (len (contentOf token)) 0) as [Hz%len_zero|]; [done|lia]. }
  split; [lia|]. right. repeat split; try done; lia.
Qed.

Lemma mapTokens_inOrder text end_ begin tokens :
  Forall (fun token => Token.map token = None) tokens ->
  begin <= end_ ->
  inOrder begin (mapTokens text end_ begin tokens) /\
  Forall (fun tnp => TokenAndPosition.end_ tnp <= end_) (mapTokens text end_ begin tokens) /\
  begin <= cursorAfter text end_ begin tokens <= end_.
Proof.
  intros Hmap. revert begin. induction Hmap as [|token tokens Hm _ IH]; intros begin Hbe.
  - cbn. split; [done|]. split; [constructor|lia].
  - cbn [mapTokens cursorAfter].
    pose proof (position_no_map text end_ begin token Hm) as Hp. cbv zeta in Hp.
    destruct (position text end_ begin token) as [tnp c]. cbn [fst snd] in *.
    destruct Hp as (_ & -> & Hb & Hcase).
    assert (TokenAndPosition.begin tnp <= TokenAndPosition.end_ tnp <= end_) as Hspan.
    { destruct Hcase as [[-> ->]|(_ & _ & -> & ? & _)]; [lia|].
      pose proof (len_nonneg (contentOf token)). lia. }
    destruct (IH (TokenAndPosition.end_ tnp) ltac:(lia)) as (Ho & He & Hc).
    split; [|split].
    + cbn. split; [done|]. split; [lia|done].
    + constructor; [lia|done].
    + lia.
Qed.

(** Induction on a token with the hypothesis for each of its children. *)
Lemma Token_nested_ind (P : Token.t -> Prop) :
  (forall token, Forall P (Token.children token) -> P token) ->
  forall token, P token.
Proof.
  intros HP. fix IH 1. intros [type map attrs content children]. apply HP.
  cbn [Token.children]. revert children. fix IHc 1. intros [|child children].
  - constructor.
  - constructor; [apply IH|apply IHc].
Qed.

Lemma descend_deeper text parent begin end_ :
  descend text parent begin end_ =
  mapTokens text end_ begin (Token.children parent)
  ++ deeper text (mapTokens text end_ begin (Token.children parent)).
Proof.
  destruct parent as [type map attrs content children].
  cbn [descend Token.children]. f_equal.
  pose proof (mapTokens_tokens text end_ begin children) as Ht.
  revert Ht. generalize (mapTokens text end_ begin children) as tnps.
  induction children as [|child children IH]; intros tnps Ht.
  - by destruct tnps.
  - destruct tnps as [|tnp tnps]; [done|]. injection Ht as Hc Ht.
    cbn [deeper flat_map]. rewrite Hc. f_equal. by apply IH.
Qed.

Lemma descend_flatten text parent begin end_ :
  List.map TokenAndPosition.token (descend text parent begin end_) = flatten parent.
Proof.
  revert begin end_. induction parent as [parent IH] using Token_nested_ind.
  intros begin end_. rewrite descend_deeper, map_app, mapTokens_tokens.
  destruct parent as [type map attrs content children]. cbn [flatten Token.children] in *.
  f_equal.
  pose proof (mapTokens_tokens text end_ begin children) as Ht.
  revert Ht. generalize (mapTokens text end_ begin children) as tnps.
  induction IH as [|child children Hchild _ IHc]; intros tnps Ht.
  - by destruct tnps.
  - destruct tnps as [|tnp tnps]; [done|]. injection Ht as Hc Ht.
    cbn [deeper flat_map]. rewrite map_app. f_equal; [|by apply IHc].
    unfold hasChildren. rewrite Hc.
    destruct child as [ty m a c [|g gs]]; [done|]. apply Hchild.
Qed.

Lemma position_inText text end_ begin token :
  (forall p, 0 <= offsetAt text p <= len text) ->
  0 <= begin <= len text ->
  spanInText text (fst (position text end_ begin token)) /\
  0 <= snd (position text end_ begin token) <= len text /\
  (Token.map token = None ->
   TokenAndPosition.begin (fst (position text end_ begin token))
   <= TokenAndPosition.end_ (fst (position text end_ begin token))).
Proof.
  intros Hoff Hb. destruct (Token.map token) as [[line0 line1]|] eqn:Hmap.
  - unfold position, spanInText. rewrite Hmap. cbn.
    pose proof (Hoff (mkPosition line0 0)). pose proof (Hoff (mkPosition line1 0)).
    split; [lia|]. split; [lia|done].
  - pose proof (position_no_map text end_ begin token Hmap) as Hp. cbv zeta in Hp.
    destruct (position text end_ begin token) as [tnp c]. cbn [fst snd] in *.
    destruct Hp as (_ & -> & Hbb & Hcase). unfold spanInText.
    pose proof (len_nonneg (contentOf token)).
    destruct Hcase as [[-> ->]|(_ & ? & -> & ? & ? & _)].
    + split; [lia|]. split; [lia|]. intros _. lia.
    + split; [lia|]. split; [lia|]. intros _. lia.
Qed.

Lemma mapTokens_inText text end_ begin tokens :
  (forall p, 0 <= offsetAt text p <= len text) ->
  0 <= begin <= len text ->
  Forall (fun tnp =>
            spanInText text tnp /\
            (Token.map (TokenAndPosition.token tnp) = None ->
             TokenAndPosition.begin tnp <= TokenAndPosition.end_ tnp))
         (mapTokens text end_ begin tokens).
Proof.
  intros Hoff. revert begin. induction tokens as [|token tokens IH]; intros begin Hb;
    cbn [mapTokens]; [constructor|].
  pose proof (position_inText text end_ begin token Hoff Hb) as (Hs & Hc & Hm).
  pose proof (position_token text end_ begin token) as Ht.
  destruct (position text end_ begin token) as [tnp c]. cbn [fst snd] in *.
  constructor; [|by apply IH]. split; [done|]. by rewrite Ht.
Qed.

Lemma descend_inText text parent begin end_ :
  (forall p, 0 <= offsetAt text p <= len text) ->
  0 <= begin <= len text ->
  Forall (fun tnp =>
            spanInText text tnp /\
            (Token.map (TokenAndPosition.token tnp) = None ->
             TokenAndPosition.begin tnp <= TokenAndPosition.end_ tnp))
         (descend text parent begin end_).
Proof.
  intros Hoff. revert begin end_. induction parent as [parent IH] using Token_nested_ind.
  intros begin end_ Hb. rewrite descend_deeper. apply Forall_app.
  pose proof (mapTokens_inText text end_ begin (Token.children parent) Hoff Hb) as Hlevel.
  split; [done|].
  pose proof (mapTokens_tokens text end_ begin (Token.children parent)) as Ht.
  revert Ht Hlevel. generalize (mapTokens text end_ begin (Token.children parent)) as tnps.
  induction IH as [|child children Hchild _ IHc]; intros tnps Ht Hlevel.
  - destruct tnps; [constructor|done].
  - destruct tnps as [|tnp tnps]; [done|]. injection Ht as Hc Ht.
    apply Forall_cons in Hlevel as [[[Hs _] _] Hlevel].
    cbn [deeper flat_map]. apply Forall_app. split; [|by apply IHc].
    destruct (hasChildren tnp); [|constructor]. rewrite Hc. by apply Hchild.
Qed.

Lemma addDiagnostics_Forall_validate (P : Diagnostic -> Prop)
    diagnostics begin end_ src context info :
  (forall d, In d (validate begin end_ src context info) -> P d) ->
  Forall P diagnostics ->
  Forall P (addDiagnostics diagnostics begin end_ src context info).
Proof.
  intros HP Hds. rewrite addDiagnostics_app. apply Forall_app. split; [done|].
  by apply List.Forall_forall.
Qed.

Lemma found_onOccurrence text info src pos d :
  truthy src = true ->
  indexOf text src pos <> -1 ->
  In d (validate (indexOf text src pos) (indexOf text src pos + len src) src MARKDOWN info) ->
  onOccurrence text info d.
Proof.
  intros Ht%truthy_true Hf Hd. destruct (indexOf_occurrence _ _ _ Hf) as (H1 & H2 & H3).
  destruct (validate_range _ _ _ _ _ _ Hd) as [Hb He].
  pose proof (len_nonneg text).
  exists src. rewrite Hb, He. repeat split; try done. lia.
Qed.

Lemma fold_left_Forall_In {A} (P : Diagnostic -> Prop)
    (f : list Diagnostic -> A -> list Diagnostic) (l : list A) diagnostics :
  (forall ds a, In a l -> Forall P ds -> Forall P (f ds a)) ->
  Forall P diagnostics -> Forall P (fold_left f l diagnostics).
Proof.
  revert diagnostics. induction l as [|a l IH]; intros diagnostics Hf Hds; cbn; [done|].
  apply IH; [intros ds b Hb; apply Hf; by right|]. apply Hf; [by left|done].
Qed.

Lemma proseDiagnostics_onOccurrence text info :
  Forall (onOccurrence text info) (proseDiagnostics text info).
Proof.
  unfold proseDiagnostics. cbv zeta.
  apply fold_left_Forall.
  { intros ds tnp Hds. unfold addText. apply fold_left_Forall; [|done].
    intros ds' tag Hds'. unfold onStartTag.
    destruct (String.eqb (name tag) "img"); [|done].
    destruct (List.find _ _) as [src|]; [|done].
    destruct (truthy (snd src)) eqn:Ht; [|done]. cbv zeta.
    destruct (Z.eqb_spec (indexOf text (snd src)
                (TokenAndPosition.begin tnp + startOffset tag)) (-1)) as [|Hf]; [done|].
    cbn [negb andb]. destruct (_ <? _); [|done].
    apply addDiagnostics_Forall_validate; [|done].
    intros d Hd. by apply (found_onOccurrence text info (snd src) _ d Ht Hf). }
  apply fold_left_Forall_In; [|constructor].
  intros ds inp [_ Himg]%filter_In Hds. unfold addImage. cbv zeta.
  unfold isImage in Himg. apply andb_true_iff in Himg as [_ Hsrc].
  destruct (Token.attrGet (TokenAndPosition.token inp) "src") as [src|]; [|done].
  cbn [truthy_opt default] in *. unfold id.
  destruct (Z.eqb_spec (indexOf text src (TokenAndPosition.begin inp)) (-1)) as [|Hf];
    [done|].
  cbn [negb andb]. destruct (_ <? _); [|done].
  apply addDiagnostics_Forall_validate; [|done].
  intros d Hd. by apply (found_onOccurrence text info src _ d Hsrc Hf).
Qed.

End MapperProperties.

(** X14.  For a token without line range the callback of the mapper never
    moves the cursor backward, and the cursor ends at the end of the span.
    The span is either empty at the cursor, or an occurrence of the content
    of the token in the text: it starts at or after the cursor, ends within
    the inherited bound and within the text, and the text there reads the
    content. *)
Theorem token_span_is_an_occurrence `{Host} text end_ begin token :
  Token.map token = None ->
  let tnp := fst (position text end_ begin token) in
  TokenAndPosition.token tnp = token /\
  snd (position text end_ begin token) = TokenAndPosition.end_ tnp /\
  begin <= TokenAndPosition.begin tnp /\
  begin <= snd (position text end_ begin token) /\
  ((TokenAndPosition.begin tnp = begin /\ TokenAndPosition.end_ tnp = begin) \/
   (contentOf token <> ""%string /\
    0 <= TokenAndPosition.begin tnp /\
    TokenAndPosition.end_ tnp = TokenAndPosition.begin tnp + len (contentOf token) /\
    TokenAndPosition.end_ tnp <= end_ /\
    TokenAndPosition.end_ tnp <= len text /\
    String.prefix (contentOf token)
      (drop (Z.to_nat (TokenAndPosition.begin tnp)) text) = true)).
Proof.
  intros Hmap tnp.
  destruct (position_no_map text end_ begin token Hmap) as (Ht & Hc & Hb & Hcase).
  fold tnp in Ht, Hc, Hb, Hcase. repeat (split; [done|]). split; [|done].
  rewrite Hc. pose proof (len_nonneg (contentOf token)).
  destruct Hcase as [[_ ->]|(_ & _ & -> & _)]; lia.
Qed.

Lemma token_span_is_an_occurrence_witness :
  fst (@position proseHost readme1 29 8 (image "http://x.com/logo.png" "logo"))
  = mkTnp (image "http://x.com/logo.png" "logo") 8 29 /\
  String.prefix "http://x.com/logo.png" (drop 8 readme1) = true.
Proof.
  destruct (@token_span_is_an_occurrence proseHost readme1 29 8
              (image "http://x.com/logo.png" "logo") eq_refl)
    as (_ & _ & _ & _ & [[_ Hu]|(_ & _ & _ & _ & _ & Hp)]).
  - vm_compute in Hu. discriminate Hu.
  - split; [reflexivity|exact Hp].
Defined.

(** X15.  On a level whose tokens have no line range, as the children of an
    inline token, the spans follow each other in the order of the tokens:
    each starts at or after the end of the one before, none ends before it
    starts, and all lie between the cursor and the inherited bound. *)
Theorem spans_follow_each_other `{Host} text end_ begin tokens :
  Forall (fun token => Token.map token = None) tokens ->
  begin <= end_ ->
  inOrder begin (mapTokens text end_ begin tokens) /\
  Forall (fun tnp => begin <= TokenAndPosition.begin tnp /\
                     TokenAndPosition.end_ tnp <= end_)
         (mapTokens text end_ begin tokens) /\
  begin <= cursorAfter text end_ begin tokens <= end_.
Proof.
  intros Hmap Hbe.
  destruct (mapTokens_inOrder text end_ begin tokens Hmap Hbe) as (Ho & He & Hc).
  split; [done|]. split; [|done].
  clear Hc. revert Ho He. generalize (mapTokens text end_ begin tokens) as tnps.
  intros tnps. generalize (Z.le_refl begin). generalize begin at 2 3 as c.
  induction tnps as [|tnp tnps IH]; intros c Hc Ho He; [constructor|].
  cbn in Ho. destruct Ho as (H1 & H2 & Ho). apply Forall_cons in He as [He1 He].
  constructor; [lia|]. apply (IH (TokenAndPosition.end_ tnp)); [lia|done|done].
Qed.

Lemma spans_follow_each_other_witness :
  inOrder 0 (@mapTokens proseHost readme1 30 0
               [textToken "logo"; image "http://x.com/logo.png" "logo"; textToken "none"]).
Proof.
  apply (@spans_follow_each_other proseHost readme1 30 0
           [textToken "logo"; image "http://x.com/logo.png" "logo"; textToken "none"]).
  - repeat constructor.
  - lia.
Defined.

(** X16.  The mapper loses no token and invents none: the tokens of its
    result are the tokens of the level followed, for each token of the
    level in turn, by all the tokens below it; every token of the tree is
    there once, whatever the text and the bounds. *)
Theorem every_token_gets_a_position `{Host} text tokens begin end_ :
  List.map TokenAndPosition.token (toTokensAndPositions text tokens begin end_)
  = tokens ++ flat_map flatten tokens /\
  List.length (toTokensAndPositions text tokens begin end_)
  = List.length (tokens ++ flat_map flatten tokens).
Proof.
  assert (List.map TokenAndPosition.token (toTokensAndPositions text tokens begin end_)
          = tokens ++ flat_map flatten tokens) as Hm.
  { unfold toTokensAndPositions. by rewrite descend_flatten. }
  split; [done|]. by rewrite <- Hm, length_map.
Qed.

(** The model of [document.offsetAt] answers offsets of the text. *)
Lemma lineStart_ge s line pos : pos <= Model.lineStart s line pos.
Proof.
  revert line pos. induction s as [|c s IH]; intros line pos; cbn; [lia|].
  destruct line as [|line]; [lia|].
  destruct (Ascii.eqb c "010"); [specialize (IH line (pos + 1))|specialize (IH (S line) (pos + 1))];
    lia.
Qed.

Lemma line_offsetAt_inText text p : 0 <= Model.line_offsetAt text p <= len text.
Proof.
  unfold Model.line_offsetAt. pose proof (lineStart_ge text (Z.to_nat (line p)) 0).
  pose proof (len_nonneg text). lia.
Qed.

(** X17.  When [document.offsetAt] answers offsets of the text, both ends
    of every span of the mapper are offsets of the text, at every depth, and
    the span of a token without line range does not end before it
    starts. *)
Theorem spans_are_offsets_of_the_text `{Host} text tokens tnp :
  (forall p, 0 <= offsetAt text p <= len text) ->
  In tnp (toTokensAndPositions text tokens 0 (len text)) ->
  spanInText text tnp /\
  (Token.map (TokenAndPosition.token tnp) = None ->
   TokenAndPosition.begin tnp <= TokenAndPosition.end_ tnp).
Proof.
  intros Hoff Hin. pose proof (len_nonneg text).
  pose proof (descend_inText text (rootOf tokens) 0 (len text) Hoff ltac:(lia)) as Hall.
  by apply (proj1 (List.Forall_forall _ _) Hall).
Qed.

Lemma spans_are_offsets_of_the_text_witness :
  spanInText readme1 (mkTnp (Token.mk "text" None [] "logo" []) 21 25).
Proof.
  apply (@spans_are_offsets_of_the_text proseHost readme1
           (@markdownIt_parse proseHost readme1)
           (mkTnp (Token.mk "text" None [] "logo" []) 21 25)).
  - apply line_offsetAt_inText.
  - vm_compute. do 4 right. left. reflexivity.
Defined.

(** X18.  Every issue of a prose scan stands on an occurrence of the URL it
    is about: the URL is not empty, the range starts where the text reads
    the URL and is as long as the URL, and the issue is one of those the
    validator gives for this URL in prose. *)
Theorem prose_issue_stands_on_its_url `{Host} text info d :
  In d (proseDiagnostics text info) ->
  exists src,
    src <> ""%string /\
    0 <= range_begin d /\
    range_end d = range_begin d + len src /\
    String.prefix src (drop (Z.to_nat (range_begin d)) text) = true /\
    In d (validate (range_begin d) (range_end d) src MARKDOWN info).
Proof.
  intros Hd.
  by apply (proj1 (List.Forall_forall _ _) (proseDiagnostics_onOccurrence text info)).
Qed.

Lemma prose_issue_stands_on_its_url_witness :
  exists src,
    src <> ""%string /\
    String.prefix src (drop 10 readme2) = true /\
    10 + len src = 35.
Proof.
  destruct (@prose_issue_stands_on_its_url proseHost readme2 noRepository
              (mkDiagnostic 10 35 dataUrlsNotValid Warning))
    as (src & Hne & _ & He & Hp & _).
  - vm_compute. left. reflexivity.
  - exists src. cbn [range_begin range_end] in He, Hp.
    split; [exact Hne|]. split; [exact Hp|]. lia.
Defined.

(** ** The constructor and the change of a manifest *)

Section StartProperties.

Context `{Host}.

Lemma queue_fields document st :
  diagnosticsCollection (queue document st) = diagnosticsCollection st /\
  folderToPackageJsonInfo (queue document st) = folderToPackageJsonInfo st /\
  (forall d, In d (packageJsonQ (queue document st)) <->
             In d (packageJsonQ st) \/ (d = document /\ isPackageJson document = true)) /\
  (forall d, In d (readmeQ (queue document st)) <->
             In d (readmeQ st) \/ (d = document /\ isReadme document = true)) /\
  timer (queue document st) = timer st || linted document.
Proof.
  unfold queue, linted.
  destruct (queueReadme_fields document
              (if isPackageJson document
               then startTimer (with_packageJsonQ (set_add document) st) else st))
    as (-> & -> & Hp & Hr & ->).
  split; [by destruct (isPackageJson document)|].
  split; [by destruct (isPackageJson document)|].
  split; [|split].
  - intros d. rewrite Hp. destruct (isPackageJson document); cbn.
    + rewrite set_add_In. tauto.
    + intuition discriminate.
  - intros d. rewrite Hr. by destruct (isPackageJson document).
  - destruct (isPackageJson document); cbn; [|done]. by rewrite orb_true_r.
Qed.

Lemma fold_queue_fields l st :
  let st' := fold_left (fun st document => queue document st) l st in
  diagnosticsCollection st' = diagnosticsCollection st /\
  folderToPackageJsonInfo st' = folderToPackageJsonInfo st /\
  (forall d, In d (packageJsonQ st') <->
             In d (packageJsonQ st) \/ (In d l /\ isPackageJson d = true)) /\
  (forall d, In d (readmeQ st') <->
             In d (readmeQ st) \/ (In d l /\ isReadme d = true)) /\
  timer st' = timer st || existsb linted l.
Proof.
  revert st. induction l as [|a l IH]; intros st; cbn [fold_left existsb].
  - cbn. rewrite orb_false_r. repeat split; tauto.
  - destruct (IH (queue a st)) as (Hd & Hc & Hp & Hr & Ht). cbv zeta in *.
    destruct (queue_fields a st) as (Hd' & Hc' & Hp' & Hr' & Ht').
    rewrite Hd, Hc, Ht, Hd', Hc', Ht', orb_assoc.
    split; [done|]. split; [done|]. split; [|split; [|done]].
    + intros d. rewrite Hp, Hp'. cbn [In].
      split; [intros [[?|[-> ?]]|[? ?]]; auto|intros [?|[[<-|?] ?]]; auto].
    + intros d. rewrite Hr, Hr'. cbn [In].
      split; [intros [[?|[-> ?]]|[? ?]]; auto|intros [?|[[<-|?] ?]]; auto].
Qed.


End StartProperties.

(** X19.  The constructor starts with nothing published and nothing cached
    and queues the documents that are open in the workspace: the manifest
    queue holds the manifests among them, the prose queue the prose
    documents among them, and a timeout is pending exactly when there is
    one of either kind. *)
Theorem constructor_queues_the_open_documents ws d :
  diagnosticsCollection (constructor ws) = ∅ /\
  folderToPackageJsonInfo (constructor ws) = ∅ /\
  (In d (packageJsonQ (constructor ws)) <->
   In d (textDocuments ws) /\ isPackageJson d = true) /\
  (In d (readmeQ (constructor ws)) <->
   In d (textDocuments ws) /\ isReadme d = true) /\
  timer (constructor ws) = existsb linted (textDocuments ws).
Proof.
  unfold constructor.
  destruct (fold_queue_fields (textDocuments ws) empty_linter) as (Hd & Hc & Hp & Hr & Ht).
  cbv zeta in *. rewrite Hd, Hc, Hp, Hr, Ht. cbn.
  repeat split; try tauto; intros [[]|?]; tauto.
Qed.



(** ** Published ranges and errors of [Uri.parse] *)



(** X22.  When a call of [Uri.parse] throws in the scan of the first
    manifest of the queue, the expiry of the timeout ends there: the
    manifests behind it stay in the queue, nothing is published, and the
    prose queue is not scanned.  When it is the repository URL that makes
    [Uri.parse] throw, nothing is cached or queued either; then, and when
    no info was cached for the folder of the manifest, no timeout is
    pending, so that the manifests left in the queue wait for the next
    event. *)
Theorem thrown_manifest_scan_ends_the_timeout `{Host} ws st document rest :
  timer st = true ->
  packageJsonQ st = document :: rest ->
  isClosed ws document = false ->
  manifestParses (parseTree (getText ws document)) = false ->
  exists st',
    stepE ws st timeout = thrown st' /\
    packageJsonQ st' = set_delete document rest /\
    diagnosticsCollection st' = diagnosticsCollection st /\
    (forall d, In d (readmeQ st) -> In d (readmeQ st')) /\
    (repositoryParses (parseTree (getText ws document)) = false ->
     folderToPackageJsonInfo st' = folderToPackageJsonInfo st /\
     readmeQ st' = readmeQ st) /\
    (repositoryParses (parseTree (getText ws document)) = false
     \/ folderToPackageJsonInfo st !! Uri_toString (getUriFolder (uri document)) = None ->
     timer st' = false).
Proof.
  intros Htimer Hq Hopen Hparses. cbn [stepE]. rewrite Htimer.
  unfold fireE, lintE, lintPackageJsonE. cbn [packageJsonQ]. rewrite Hq.
  cbn [forEachE].
  destruct (lintPackageJsonDocumentE_thrown ws
              (mkLinter (diagnosticsCollection st) (folderToPackageJsonInfo st)
                 (document :: rest) (readmeQ st) false) document Hopen Hparses)
    as (st' & -> & Hp & Hd & Hr & Hrepo & Ht).
  exists st'. split; [done|]. cbn in Hp, Hd, Hr, Ht.
  assert (set_delete document (document :: rest) = set_delete document rest) as Hdel.
  { unfold set_delete. cbn [List.filter].
    rewrite bool_decide_eq_false_2; [done|]. intros Hne. by apply Hne. }
  split; [by rewrite Hp|]. split; [done|]. split; [done|]. split.
  - intros ->%Hrepo. done.
  - intros [->%Hrepo|Hnone]; [done|]. by apply Ht.
Qed.

Lemma thrown_manifest_scan_ends_the_timeout_witness :
  exists st',
    @stepE plainHost workspace10 (constructor workspace10) timeout = thrown st' /\
    packageJsonQ st' = [packageJsonB] /\
    diagnosticsCollection st' = ∅ /\
    timer st' = false.
Proof.
  destruct (@thrown_manifest_scan_ends_the_timeout plainHost workspace10
              (constructor workspace10) packageJsonA [packageJsonB])
    as (st' & Hstep & Hq & Hd & _ & _ & Ht); try reflexivity.
  exists st'. split; [exact Hstep|]. split; [exact Hq|]. split; [exact Hd|].
  apply Ht. right. reflexivity.
Defined.

(** *** The invariant, errors included *)

Section ErrorInvariant.

Context `{Host}.

Lemma lintPackageJsonDocumentE_invariant ws st document :
  isPackageJson document = true ->
  invariant st -> invariant (state (lintPackageJsonDocumentE ws st document)).
Proof.
  intros Hdoc (Hp & Hr & Hd). unfold lintPackageJsonDocumentE, readPackageJsonInfoE.
  cbv zeta.
  assert (invariant (with_packageJsonQ (set_delete document) st)) as Hst.
  { split; [|done]. cbn. by apply set_delete_Forall. }
  destruct (isClosed ws document); [done|].
  destruct (repositoryParses _); [|done].
  pose proof (readPackageJsonInfo_invariant ws (getUriFolder (uri document))
                (parseTree (getText ws document)) _ Hst) as Hread.
  destruct (readPackageJsonInfo _ _ _ _) as [info st']. cbn [snd] in Hread.
  destruct (if isExtension info then _ else _); [|done].
  apply publish_invariant; [|done]. unfold linted. by rewrite Hdoc.
Qed.

Lemma forEachE_invariant ws documents st :
  Forall (fun d => isPackageJson d = true) documents ->
  invariant st ->
  invariant (state (forEachE (lintPackageJsonDocumentE ws) documents st)).
Proof.
  revert st. induction documents as [|d documents IH]; intros st Hq Hst;
    cbn [forEachE]; [done|].
  inversion Hq; subst.
  pose proof (lintPackageJsonDocumentE_invariant ws st d ltac:(done) Hst) as Hd.
  destruct (lintPackageJsonDocumentE ws st d); [by apply IH|done].
Qed.

Lemma lintReadmeLoopE_invariant ws documents st :
  Forall (fun d => isReadme d = true) documents ->
  invariant st -> invariant (state (lintReadmeLoopE ws documents st)).
Proof.
  revert st. induction documents as [|d documents IH]; intros st Hq Hst; [done|].
  inversion Hq as [|? ? Hdoc Hq']; subst. cbn [lintReadmeLoopE]. cbv zeta.
  assert (invariant (with_readmeQ (set_delete d) st)) as Hst'.
  { destruct Hst as (Hp & Hr & Hd). split; [done|]. split; [|done].
    cbn. by apply set_delete_Forall. }
  destruct (isClosed ws d); [done|].
  assert (linted d = true) as Hl by (unfold linted; rewrite Hdoc; apply orb_true_r).
  cbn [with_readmeQ folderToPackageJsonInfo].
  destruct (folderToPackageJsonInfo st !! _) as [info|].
  - destruct (negb (isExtension info)); [by apply publish_invariant|].
    destruct (proseParses _); [|done]. apply IH; [done|]. by apply publish_invariant.
  - unfold readPackageJsonInfoE. destruct (repositoryParses _); [|done].
    pose proof (readPackageJsonInfo_invariant ws (getUriFolder (uri d))
                  (loadPackageJson ws (getUriFolder (uri d))) _ Hst') as Hread.
    destruct (readPackageJsonInfo _ _ _ _) as [info st'']. cbn [snd] in Hread.
    destruct (negb (isExtension info)); [by apply publish_invariant|].
    destruct (proseParses _); [|done]. apply IH; [done|]. by apply publish_invariant.
Qed.

Lemma stepE_invariant ws st e : invariant st -> invariant (state (stepE ws st e)).
Proof.
  intros Hst. destruct e; cbn [stepE state].
  - by apply queue_invariant.
  - by apply queue_invariant.
  - by apply clear_invariant.
  - destruct (timer st); [|done]. unfold fireE, lintE, lintPackageJsonE, lintReadmeE.
    destruct Hst as (Hp & Hr & Hd).
    match goal with |- context [forEachE _ _ ?s] =>
      pose proof (forEachE_invariant ws (packageJsonQ s) s Hp
                    (conj Hp (conj Hr Hd))) as Hm end.
    destruct (forEachE _ _ _) as [st1|st1]; [|done].
    apply lintReadmeLoopE_invariant; [apply Hm|done].
Qed.

End ErrorInvariant.

(** X23.  The invariant of the linter holds in every state it reaches, the
    states included in which an error of [Uri.parse] left it: the queues
    hold linted documents only, and issues are published for the URIs of
    linted documents only.  A callback that returns leaves the state of
    [step]. *)
Theorem invariant_survives_errors `{Host} st :
  reachableE st ->
  invariant st /\
  (forall ws e st', stepE ws st e = returned st' -> st' = step ws st e) /\
  (forall ws e, reachableE (state (stepE ws st e))).
Proof.
  intros Hr. split; [|split].
  - induction Hr as [ws|ws st e _ IH]; [apply constructor_invariant|].
    by apply stepE_invariant.
  - intros ws e st'. apply stepE_returned.
  - intros ws e. by constructor.
Qed.

Lemma invariant_survives_errors_witness :
  invariant (state (@stepE plainHost workspace10 (constructor workspace10) timeout)).
Proof.
  apply (@invariant_survives_errors plainHost).
  apply (@reachableE_step plainHost). apply (@reachableE_constructor plainHost).
Defined.
